(** * corriente_mqtt: the UART-to-MQTT telemetry loop of [main/app_main.c]

    A shallow embedding of the program and of the parts of the C library it
    relies on.

    - [publish_corriente], [mqtt_event_handler], [mqtt_app_start]: the C
      functions of the same names.
    - [app_main_start]: [app_main] up to the loop; [cycle]: one iteration of
      its [while (1)], made of [serial_part] (the UART read and the
      [sscanf]) and [synthetic_part] (the two [rand] readings).
    - [B32]: the arithmetic of the C type [float] (IEEE 754 binary32, round
      to nearest, ties to even).
    - [snprintf], [fmt_int], [fmt_2f]: [snprintf] with [%s], [%d], [%lld]
      and [%.2f]; [sscanf], [scan_float]: [sscanf] with [%f];
      [rand_impl]: [rand], [srand] and [RAND_MAX].

    Conventions.
    - A C string is the list of its characters before the terminating NUL.
    - A finite binary32 magnitude is counted in units of [2^-149], the
      smallest subnormal: every finite [float] is a whole number of units.
    - Effects (log macros, [esp_mqtt_client_publish], [vTaskDelay]) are
      appended to a trace carried by the state; what the environment returns
      ([time], [uart_read_bytes], message ids) comes in as inputs. *)

From Stdlib Require Import ZArith List String Ascii Bool Lia.
From Stdlib Require Floats.SpecFloat.
Import ListNotations.
Open Scope Z_scope.

(** ** Binary32 arithmetic *)

Module B32.

(** The C type [float]; [mag] is the magnitude in units of [2^-149]. *)
Inductive float : Type :=
| NaN
| Inf (neg : bool)
| Fin (neg : bool) (mag : Z).

(** [2^128], the first magnitude that is out of range, in units. *)
Definition overflow_mag : Z := 2 ^ 277.

(** Magnitude of [1.0f]. *)
Definition one_mag : Z := 2 ^ 149.

(** Nearest integer to [n / d], ties to even ([0 <= n], [0 < d]). *)
Definition rne (n d : Z) : Z :=
  let q := n / d in
  match 2 * (n mod d) ?= d with
  | Lt => q
  | Gt => q + 1
  | Eq => if Z.even q then q else q + 1
  end.

(** Spacing of binary32 numbers around magnitude [t]: 24 significant bits,
    and never finer than one unit. *)
Definition ulp (t : Z) : Z := 2 ^ Z.max 0 (Z.log2 t - 23).

(** The rational [n / d] (in units) rounded to the nearest magnitude with a
    24-bit significand, ties to even; the exponent is not bounded above. *)
Definition round_mag (n d : Z) : Z :=
  let u := ulp (n / d) in u * rne n (d * u).

(** A magnitude that a binary32 number can have. *)
Definition canonical (t : Z) : Prop := 0 <= t /\ t mod ulp t = 0.

Definition valid (x : float) : Prop :=
  match x with
  | Fin _ t => canonical t /\ t < overflow_mag
  | _ => True
  end.

(** Round to nearest, overflowing to infinity. *)
Definition of_mag (neg : bool) (n d : Z) : float :=
  let t := round_mag n d in
  if overflow_mag <=? t then Inf neg else Fin neg t.

(** Conversion of an [int] to [float]. *)
Definition of_int (z : Z) : float :=
  if z <? 0 then of_mag true (- z * one_mag) 1 else of_mag false (z * one_mag) 1.

(** The value [m * 10^e10] of a decimal constant, correctly rounded. *)
Definition of_decimal (neg : bool) (m e10 : Z) : float :=
  if m =? 0 then Fin neg 0
  else if 0 <=? e10 then of_mag neg (m * 10 ^ e10 * one_mag) 1
  else of_mag neg (m * one_mag) (10 ^ (- e10)).

Definition signed (neg : bool) (t : Z) : Z := if neg then - t else t.

Definition fadd (x y : float) : float :=
  match x, y with
  | NaN, _ | _, NaN => NaN
  | Inf a, Inf b => if Bool.eqb a b then Inf a else NaN
  | Inf a, Fin _ _ => Inf a
  | Fin _ _, Inf b => Inf b
  | Fin a ta, Fin b tb =>
      let s := signed a ta + signed b tb in
      if s =? 0 then Fin (a && b) 0
      else of_mag (s <? 0) (Z.abs s) 1
  end.

Definition fmul (x y : float) : float :=
  match x, y with
  | NaN, _ | _, NaN => NaN
  | Inf a, Inf b => Inf (xorb a b)
  | Inf a, Fin b t | Fin a t, Inf b => if t =? 0 then NaN else Inf (xorb a b)
  | Fin a ta, Fin b tb => of_mag (xorb a b) (ta * tb) one_mag
  end.

Definition fdiv (x y : float) : float :=
  match x, y with
  | NaN, _ | _, NaN => NaN
  | Inf _, Inf _ => NaN
  | Inf a, Fin b _ => Inf (xorb a b)
  | Fin a _, Inf b => Fin (xorb a b) 0
  | Fin a ta, Fin b tb =>
      if tb =? 0 then (if ta =? 0 then NaN else Inf (xorb a b))
      else of_mag (xorb a b) (ta * one_mag) tb
  end.


(** The same number in the standard library's IEEE 754 specification. *)
Definition to_spec (x : float) : SpecFloat.spec_float :=
  match x with
  | NaN => SpecFloat.S754_nan
  | Inf s => SpecFloat.S754_infinity s
  | Fin s t => SpecFloat.binary_normalize 24 128 (signed s t) (-149) s
  end.

End B32.

Export B32.

(** ** The C library *)

Definition lit (s : string) : list ascii := list_ascii_of_string s.

Definition code (c : ascii) : Z := Z.of_N (N_of_ascii c).

Definition is_digit (c : ascii) : bool := (48 <=? code c) && (code c <=? 57).

Definition digit_val (c : ascii) : Z := code c - 48.

Definition digit_char (d : Z) : ascii := ascii_of_N (Z.to_N (48 + d)).

Definition isspace (c : ascii) : bool :=
  (code c =? 32) || ((9 <=? code c) && (code c <=? 13)).

Definition tolower (c : ascii) : ascii :=
  if (65 <=? code c) && (code c <=? 90) then ascii_of_N (Z.to_N (code c + 32)) else c.

(** *** Formatted output *)

Fixpoint dec_fuel (fuel : nat) (n : Z) (acc : list ascii) : list ascii :=
  match fuel with
  | O => acc
  | S f =>
      let acc' := digit_char (n mod 10) :: acc in
      if n <? 10 then acc' else dec_fuel f (n / 10) acc'
  end.

(** Decimal digits of [n >= 0], most significant first. *)
Definition dec (n : Z) : list ascii := dec_fuel (S (Z.to_nat (Z.log2 n))) n [].

(** [%d] and [%lld]. *)
Definition fmt_int (z : Z) : list ascii :=
  if z <? 0 then lit "-" ++ dec (- z) else dec z.

(** The cast [(long long)]: wrap-around to 64 bits, two's complement. *)
Definition to_long_long (z : Z) : Z := (z + 2 ^ 63) mod 2 ^ 64 - 2 ^ 63.

Definition sign_text (neg : bool) : list ascii := if neg then lit "-" else [].

(** The magnitude in hundredths, rounded to nearest, ties to even. *)
Definition hundredths (t : Z) : Z := rne (100 * t) one_mag.

(** [%.2f]: the exact value rounded at the second decimal. *)
Definition fmt_2f (x : float) : list ascii :=
  match x with
  | NaN => lit "nan"
  | Inf s => sign_text s ++ lit "inf"
  | Fin s t =>
      let h := hundredths t in
      sign_text s ++ dec (h / 100) ++ lit "."
        ++ [digit_char (h / 10 mod 10); digit_char (h mod 10)]
  end.

(** [snprintf (buf, size, ...)]: what ends up in [buf] when the formatted
    text is [s]: at most [size - 1] characters, then the NUL. *)
Definition snprintf (size : nat) (s : list ascii) : list ascii := firstn (size - 1) s.

(** The C string held in a buffer: the bytes before the first NUL. *)
Fixpoint c_str (buf : list ascii) : list ascii :=
  match buf with
  | [] => []
  | c :: t => if Ascii.eqb c zero then [] else c :: c_str t
  end.

(** *** Formatted input *)

Fixpoint skip_ws (s : list ascii) : list ascii :=
  match s with
  | c :: t => if isspace c then skip_ws t else s
  | [] => []
  end.

Fixpoint scan_digits (s : list ascii) (acc cnt : Z) : Z * Z * list ascii :=
  match s with
  | c :: t => if is_digit c then scan_digits t (10 * acc + digit_val c) (cnt + 1)
              else (acc, cnt, s)
  | [] => (acc, cnt, [])
  end.

Definition scan_sign (s : list ascii) : bool * list ascii :=
  match s with
  | c :: t => if Ascii.eqb c "-" then (true, t)
              else if Ascii.eqb c "+" then (false, t) else (false, s)
  | [] => (false, [])
  end.

(** Match the lower-case word [w] at the head of [s], ignoring case. *)
Fixpoint match_ci (w s : list ascii) : option (list ascii) :=
  match w with
  | [] => Some s
  | a :: w' =>
      match s with
      | c :: s' => if Ascii.eqb (tolower c) a then match_ci w' s' else None
      | [] => None
      end
  end.

(** An exponent part is read only when it is complete. *)
Definition scan_exponent (s : list ascii) : Z * list ascii :=
  match s with
  | c :: t =>
      if Ascii.eqb (tolower c) "e" then
        let '(neg, t1) := scan_sign t in
        let '(e, n, t2) := scan_digits t1 0 0 in
        if n =? 0 then (0, s) else (signed neg e, t2)
      else (0, s)
  | [] => (0, [])
  end.

(** The input item of [%f], as newlib (the C library of ESP-IDF) reads it:
    an optional sign, then [inf], [infinity] or [nan] in any case, or a
    decimal constant with an optional exponent.  The constant is converted
    to the nearest binary32 number. *)
Definition scan_float (s : list ascii) : option (float * list ascii) :=
  let '(neg, s1) := scan_sign s in
  match match_ci (lit "inf") s1 with
  | Some r =>
      match match_ci (lit "i") r with
      | Some _ =>
          match match_ci (lit "inity") r with
          | Some r' => Some (Inf neg, r')
          | None => None
          end
      | None => Some (Inf neg, r)
      end
  | None =>
      match match_ci (lit "nan") s1 with
      | Some r => Some (NaN, r)
      | None =>
          let '(ip, n1, s2) := scan_digits s1 0 0 in
          let '(m, n2, s3) :=
            match s2 with
            | c :: t => if Ascii.eqb c "." then scan_digits t ip 0 else (ip, 0, s2)
            | [] => (ip, 0, s2)
            end in
          if n1 + n2 =? 0 then None
          else let '(e, s4) := scan_exponent s3 in
               Some (of_decimal neg m (e - n2), s4)
      end
  end.

Inductive directive : Type :=
| DLit (c : ascii)
| DSpace
| DFloat.

(** The directives of a format string (only [%f] is used by the program). *)
Fixpoint parse_format (f : list ascii) : list directive :=
  match f with
  | [] => []
  | c :: t =>
      if isspace c then DSpace :: parse_format t
      else if Ascii.eqb c "%" then
        match t with
        | c2 :: t' => if Ascii.eqb c2 "f" then DFloat :: parse_format t'
                      else DLit c :: parse_format t
        | [] => [DLit c]
        end
      else DLit c :: parse_format t
  end.

(** What [sscanf] returns: [EOF], or the values assigned (the returned count
    is their number). *)
Inductive scan_result : Type :=
| ScanEOF
| ScanCount (vals : list float).

Definition scan_stop (input_failure : bool) (vals : list float) : scan_result :=
  match vals with
  | [] => if input_failure then ScanEOF else ScanCount []
  | _ => ScanCount vals
  end.

Fixpoint scan_directives (ds : list directive) (s : list ascii) (vals : list float)
  : scan_result :=
  match ds with
  | [] => ScanCount vals
  | DSpace :: ds' => scan_directives ds' (skip_ws s) vals
  | DLit c :: ds' =>
      match s with
      | [] => scan_stop true vals
      | c' :: s' => if Ascii.eqb c' c then scan_directives ds' s' vals
                    else scan_stop false vals
      end
  | DFloat :: ds' =>
      match skip_ws s with
      | [] => scan_stop true vals
      | s1 => match scan_float s1 with
              | Some (v, rest) => scan_directives ds' rest (vals ++ [v])
              | None => scan_stop false vals
              end
      end
  end.

Definition sscanf (s fmt : list ascii) : scan_result :=
  scan_directives (parse_format fmt) s [].

(** *** Pseudo-random numbers

    [rand], [srand] and [RAND_MAX] belong to the C library, not to the
    repository: the program is modelled over any implementation of them.
    The generator's hidden global state is a number; [rand] returns the
    next value and the state that follows. *)
Record rand_impl : Type := {
  RAND_MAX : Z;
  srand : Z -> Z;
  rand : Z -> Z * Z
}.

(** One implementation: a 64-bit linear congruential generator with 31-bit
    results, the scheme of newlib. *)
Definition lcg64 : rand_impl := {|
  RAND_MAX := 2147483647;
  srand := fun seed => seed;
  rand := fun next =>
    let next' := (next * 6364136223846793005 + 1) mod 2 ^ 64 in
    (Z.land (Z.shiftr next' 32) 2147483647, next')
|}.

(** ** The program *)

(** [#define UART_BUF_SIZE 1024] *)
Definition UART_BUF_SIZE : nat := 1024.

Definition TAG : list ascii := lit "lectura_UART_envio_MQTT".

Inductive log_level : Type := ESP_LOG_ERROR | ESP_LOG_WARN | ESP_LOG_INFO | ESP_LOG_DEBUG.

(** What the program does to the outside. *)
Inductive event : Type :=
| Log (lv : log_level) (tag msg : list ascii)
| Publish (client : Z) (topic payload : list ascii) (len qos retain : Z)
| Delay (ms : Z).

(** The connection state of the broker session.  It lives inside the MQTT
    client library; the program keeps no copy of it. *)
Inductive session_state : Type := Disconnected | Connecting | Connected | SessionError.

Record state : Type := {
  g_client : option Z;      (* the global handle; [None] is NULL *)
  rand_next : Z;            (* the hidden state of [rand] *)
  session : session_state;  (* held by the client library *)
  trace : list event        (* effects so far, oldest first *)
}.

Definition emit (ev : event) (st : state) : state :=
  {| g_client := g_client st; rand_next := rand_next st;
     session := session st; trace := trace st ++ [ev] |}.

Definition ESP_LOGE (msg : list ascii) : state -> state := emit (Log ESP_LOG_ERROR TAG msg).
Definition ESP_LOGW (msg : list ascii) : state -> state := emit (Log ESP_LOG_WARN TAG msg).
Definition ESP_LOGI (msg : list ascii) : state -> state := emit (Log ESP_LOG_INFO TAG msg).
Definition ESP_LOGD (msg : list ascii) : state -> state := emit (Log ESP_LOG_DEBUG TAG msg).

(** What the environment answers during one call of [publish_corriente]:
    the value of [time(NULL)] and the message id that
    [esp_mqtt_client_publish] returns. *)
Record pub_env : Type := { now : Z; msg_id : Z }.

Definition topic_of (fase : list ascii) : list ascii :=
  snprintf 64 (lit "casa/" ++ fase ++ lit "/corriente").

(** The double quote of the C format string. *)
Definition dquote : ascii := "034"%char.

(** The fixed parts of the payload format, [{"ts":] and [,"I":]. *)
Definition ts_key : list ascii := lit "{" ++ dquote :: lit "ts" ++ dquote :: lit ":".
Definition I_key : list ascii := lit "," ++ dquote :: lit "I" ++ dquote :: lit ":".

Definition payload_of (t : Z) (I_rms : float) : list ascii :=
  snprintf 128 (ts_key ++ fmt_int (to_long_long t) ++ I_key ++ fmt_2f I_rms ++ lit "}").

Definition publish_corriente (e : pub_env) (fase : list ascii) (I_rms : float)
    (st : state) : state :=
  match g_client st with
  | None =>
      ESP_LOGW (lit "Cliente MQTT no inicializado, omitiendo publicación") st
  | Some client =>
      let topic := topic_of fase in
      let payload := payload_of (now e) I_rms in
      let st1 := emit (Publish client topic payload 0 1 0) st in
      ESP_LOGI (lit "Publicado msg_id=" ++ fmt_int (msg_id e) ++ lit " Tema=" ++ topic
                  ++ lit " Payload=" ++ payload) st1
  end.

(** [esp_mqtt_event_id_t] *)
Inductive mqtt_event_id : Type :=
| MQTT_EVENT_ERROR
| MQTT_EVENT_CONNECTED
| MQTT_EVENT_DISCONNECTED
| MQTT_EVENT_PUBLISHED
| MQTT_EVENT_DATA
| MQTT_EVENT_OTHER (id : Z).

(** The fields of [esp_mqtt_event_t] that the handler reads; [ev_topic] and
    [ev_data] are already cut to [topic_len] and [data_len]. *)
Record mqtt_event : Type := {
  ev_id : Z;
  ev_msg_id : Z;
  ev_topic : list ascii;
  ev_data : list ascii;
  ev_error_type : Z
}.

Definition mqtt_event_handler (id : mqtt_event_id) (ev : mqtt_event) (st : state) : state :=
  match id with
  | MQTT_EVENT_CONNECTED => ESP_LOGI (lit "Conectado al broker MQTT") st
  | MQTT_EVENT_DISCONNECTED => ESP_LOGI (lit "Desconectado del broker MQTT") st
  | MQTT_EVENT_PUBLISHED =>
      ESP_LOGI (lit "Mensaje publicado (msg_id=" ++ fmt_int (ev_msg_id ev) ++ lit ")") st
  | MQTT_EVENT_DATA =>
      ESP_LOGI (lit "Mensaje recibido en " ++ ev_topic ev ++ lit ": " ++ ev_data ev) st
  | MQTT_EVENT_ERROR =>
      ESP_LOGE (lit "Error MQTT tipo=" ++ fmt_int (ev_error_type ev)) st
  | MQTT_EVENT_OTHER _ =>
      ESP_LOGD (lit "Evento MQTT no manejado id=" ++ fmt_int (ev_id ev)) st
  end.

(** The session state after the client library has raised an event. *)
Definition session_after (id : mqtt_event_id) (s : session_state) : session_state :=
  match id with
  | MQTT_EVENT_CONNECTED => Connected
  | MQTT_EVENT_DISCONNECTED => Disconnected
  | MQTT_EVENT_ERROR => SessionError
  | _ => s
  end.

(** The client library raises an event: it updates its session state and
    calls the registered handler. *)
Definition raise_event (id : mqtt_event_id) (ev : mqtt_event) (st : state) : state :=
  mqtt_event_handler id ev
    {| g_client := g_client st; rand_next := rand_next st;
       session := session_after id (session st); trace := trace st |}.

(** [mqtt_app_start]: [client] is what [esp_mqtt_client_init] returns; the
    start is asynchronous, the session is being set up when it returns. *)
Definition mqtt_app_start (client : option Z) (st : state) : state :=
  {| g_client := client; rand_next := rand_next st;
     session := match client with Some _ => Connecting | None => Disconnected end;
     trace := trace st |}.

(** What [uart_read_bytes] finds. *)
Inductive uart_result : Type :=
| UartError
| UartBytes (bytes : list ascii).

(** [uart_read_bytes (port, buf, length, ticks)]: the returned count and the
    bytes stored, never more than [length]. *)
Definition uart_read_bytes (r : uart_result) (length : nat) : Z * list ascii :=
  match r with
  | UartError => (-1, [])
  | UartBytes bytes => (Z.of_nat (List.length (firstn length bytes)), firstn length bytes)
  end.

(** The two synthetic readings. *)
Definition sala_of (L : rand_impl) (r : Z) : float :=
  fadd (of_decimal false 1 0)
       (fmul (fdiv (of_int r) (of_int (RAND_MAX L))) (of_decimal false 5 (-1))).

Definition garage_of (L : rand_impl) (r : Z) : float :=
  fadd (of_decimal false 26 (-1))
       (fmul (fdiv (of_int r) (of_int (RAND_MAX L))) (of_decimal false 3 (-1))).

(** What the environment supplies during one iteration of the loop. *)
Record cycle_in : Type := {
  rx : uart_result;
  env_cocina : pub_env;
  env_sala : pub_env;
  env_garage : pub_env
}.

Definition FORMAT : list ascii := lit "Current reading: %f A".

(** The [if (len > 0) ... else ...] part of the loop body. *)
Definition serial_part (c : cycle_in) (st : state) : state :=
  let '(len, rx_buf) := uart_read_bytes (rx c) (UART_BUF_SIZE - 1) in
  if 0 <? len then
    let text := c_str rx_buf in
    match sscanf text FORMAT with
    | ScanCount [I_rms] =>
        let st1 := publish_corriente (env_cocina c) (lit "Cocina") I_rms st in
        ESP_LOGI (lit "Corriente publicada: " ++ fmt_2f I_rms ++ lit " A") st1
    | _ => ESP_LOGW (lit "No pude parsear UART: " ++ text) st
    end
  else ESP_LOGW (lit "No hubo datos en UART dentro del timeout") st.

(** The two calls of [rand] and the synthetic part of the loop body. *)
Definition synthetic_part (L : rand_impl) (c : cycle_in) (st : state) : state :=
  let '(r1, n1) := rand L (rand_next st) in
  let sala_val := sala_of L r1 in
  let '(r2, n2) := rand L n1 in
  let garage_val := garage_of L r2 in
  let st0 := {| g_client := g_client st; rand_next := n2;
                session := session st; trace := trace st |} in
  let st1 := publish_corriente (env_sala c) (lit "Sala") sala_val st0 in
  let st2 := ESP_LOGI (lit "Corriente publicada (Sala): " ++ fmt_2f sala_val ++ lit " A") st1 in
  let st3 := publish_corriente (env_garage c) (lit "Garage") garage_val st2 in
  ESP_LOGI (lit "Corriente publicada (Garage): " ++ fmt_2f garage_val ++ lit " A") st3.

(** One iteration of [while (1)]. *)
Definition cycle (L : rand_impl) (c : cycle_in) (st : state) : state :=
  emit (Delay 5000) (synthetic_part L c (serial_part c st)).

(** What the environment supplies before the loop. *)
Record boot_env : Type := {
  free_heap : Z;              (* esp_get_free_heap_size () *)
  idf_version : list ascii;   (* esp_get_idf_version () *)
  startup_ok : bool;          (* every call under ESP_ERROR_CHECK returned ESP_OK *)
  timer_us : Z;               (* esp_timer_get_time () *)
  mqtt_init : option Z        (* esp_mqtt_client_init (&mqtt_cfg) *)
}.

(** The cast [(unsigned)]. *)
Definition to_unsigned (z : Z) : Z := z mod 2 ^ 32.

(** The three lines that [app_main] logs first. *)
Definition banner (b : boot_env) : list event :=
  [Log ESP_LOG_INFO TAG (lit "Arrancando aplicación");
   Log ESP_LOG_INFO TAG (lit "Memoria libre: " ++ fmt_int (free_heap b) ++ lit " bytes");
   Log ESP_LOG_INFO TAG (lit "Versión ESP-IDF: " ++ idf_version b)].

(** [app_main] up to the loop: the banner, the start-up calls under
    [ESP_ERROR_CHECK] (which abort on failure: [None]), the seeding of
    [rand] from the timer, and [mqtt_app_start]. *)
Definition app_main_start (L : rand_impl) (b : boot_env) : option state :=
  if startup_ok b then
    Some (mqtt_app_start (mqtt_init b)
            {| g_client := None; rand_next := srand L (to_unsigned (timer_us b));
               session := Disconnected; trace := banner b |})
  else None.

(** What happens next: the loop runs once more, or the client library
    raises an event. *)
Inductive input : Type :=
| Cycle (c : cycle_in)
| Event (id : mqtt_event_id) (ev : mqtt_event).

Definition step (L : rand_impl) (st : state) (i : input) : state :=
  match i with
  | Cycle c => cycle L c st
  | Event id ev => raise_event id ev st
  end.

Definition run (L : rand_impl) (ins : list input) (st : state) : state :=
  fold_left (step L) ins st.

(** The requests handed to [esp_mqtt_client_publish], in order. *)
Definition is_publish (ev : event) : bool :=
  match ev with Publish _ _ _ _ _ _ => true | _ => false end.

Definition publishes (evs : list event) : list event := filter is_publish evs.

(** The effects of one piece of the program, started in [st]. *)
Definition new_events (st st' : state) : list event :=
  skipn (List.length (trace st)) (trace st').

(** The arithmetic on large magnitudes is never unfolded by [simpl] or [cbn]. *)
Arguments round_mag : simpl never.
Arguments of_mag : simpl never.
Arguments of_decimal : simpl never.
Arguments of_int : simpl never.
Arguments sala_of : simpl never.
Arguments garage_of : simpl never.
Arguments fmt_2f : simpl never.
Arguments fmt_int : simpl never.
Arguments payload_of : simpl never.

(** ** Vocabulary of the properties *)

(** A request for at-least-once delivery that does not ask to retain. *)
Definition at_least_once (ev : event) : Prop :=
  match ev with
  | Publish _ _ _ _ qos retain => qos = 1 /\ retain = 0
  | _ => True
  end.

Definition is_error_log (ev : event) : bool :=
  match ev with Log ESP_LOG_ERROR _ _ => true | _ => false end.

Fixpoint list_eqb (a b : list ascii) : bool :=
  match a, b with
  | [], [] => true
  | x :: a', y :: b' => Ascii.eqb x y && list_eqb a' b'
  | _, _ => false
  end.

Definition is_some {A : Type} (o : option A) : bool :=
  match o with Some _ => true | None => false end.

(** A publish request on the topic of channel [fase]. *)
Definition on_channel (fase : list ascii) (ev : event) : bool :=
  match ev with
  | Publish _ topic _ _ _ _ => list_eqb topic (lit "casa/" ++ fase ++ lit "/corriente")
  | _ => false
  end.

(** The effects of one call of [publish_corriente] with the handle [client]. *)
Definition publish_effects (client : option Z) (e : pub_env) (fase : list ascii)
    (I_rms : float) : list event :=
  match client with
  | None =>
      [Log ESP_LOG_WARN TAG (lit "Cliente MQTT no inicializado, omitiendo publicación")]
  | Some cl =>
      [Publish cl (topic_of fase) (payload_of (now e) I_rms) 0 1 0;
       Log ESP_LOG_INFO TAG
         (lit "Publicado msg_id=" ++ fmt_int (msg_id e) ++ lit " Tema=" ++ topic_of fase
            ++ lit " Payload=" ++ payload_of (now e) I_rms)]
  end.

(** The two values that the next iteration draws from [rand]. *)
Definition draws (L : rand_impl) (st : state) : Z * Z :=
  (fst (rand L (rand_next st)), fst (rand L (snd (rand L (rand_next st))))).

(** The requests of the synthetic channels in an iteration started in [st]. *)
Definition synthetic_requests (L : rand_impl) (c : cycle_in) (st : state) : list event :=
  match g_client st with
  | None => []
  | Some client =>
      [Publish client (lit "casa/Sala/corriente")
         (payload_of (now (env_sala c)) (sala_of L (fst (draws L st)))) 0 1 0;
       Publish client (lit "casa/Garage/corriente")
         (payload_of (now (env_garage c)) (garage_of L (snd (draws L st)))) 0 1 0]
  end.

(** The text that the loop hands to [sscanf], if any. *)
Definition serial_text (c : cycle_in) : list ascii :=
  c_str (snd (uart_read_bytes (rx c) (UART_BUF_SIZE - 1))).

(** The text after an optional sign starts a number: a digit, a point
    followed by a digit, or the words [inf] or [nan]. *)
Definition numeric_start (s : list ascii) : bool :=
  let s1 := snd (scan_sign s) in
  match s1 with
  | c :: t =>
      is_digit c
      || (Ascii.eqb c "." && match t with c2 :: _ => is_digit c2 | [] => false end)
      || is_some (match_ci (lit "inf") s1)
      || is_some (match_ci (lit "nan") s1)
  | [] => false
  end.

(** The three kinds of malformed frame: nothing at all, a text that does not
    begin with [Current], optional white space and [reading:], and a text
    that does but carries no number after it. *)
Inductive malformed : list ascii -> Prop :=
| malformed_empty : malformed []
| malformed_prefix (s : list ascii) :
    (forall ws rest, forallb isspace ws = true ->
                     s <> lit "Current" ++ ws ++ lit "reading:" ++ rest) ->
    malformed s
| malformed_value (ws rest : list ascii) :
    forallb isspace ws = true ->
    numeric_start (skip_ws rest) = false ->
    malformed (lit "Current" ++ ws ++ lit "reading:" ++ rest).



(** The largest magnitude of a finite [float], [FLT_MAX]. *)
Definition max_mag : Z := 2 ^ 277 - 2 ^ 253.

(** *** JSON numbers *)

Fixpoint skip_digits (s : list ascii) : list ascii :=
  match s with
  | c :: t => if is_digit c then skip_digits t else s
  | [] => []
  end.

Definition starts_with_digit (s : list ascii) : bool :=
  match s with c :: _ => is_digit c | [] => false end.

(** Read a JSON number at the head of [s]: an optional minus, an integer
    part without superfluous zero, an optional fraction and an optional
    exponent.  Returns what follows it. *)
Definition json_number (s : list ascii) : option (list ascii) :=
  let s1 := match s with c :: t => if Ascii.eqb c "-" then t else s | [] => s end in
  match s1 with
  | c :: t =>
      if is_digit c then
        let s2 := if Ascii.eqb c "0" then t else skip_digits t in
        let s3 := match s2 with
                  | p :: f => if Ascii.eqb p "." && starts_with_digit f
                              then skip_digits f else s2
                  | [] => s2
                  end in
        let s4 := match s3 with
                  | e :: x =>
                      if Ascii.eqb (tolower e) "e" then
                        let x1 := snd (scan_sign x) in
                        if starts_with_digit x1 then skip_digits x1 else s3
                      else s3
                  | [] => s3
                  end in
        Some s4
      else None
  | [] => None
  end.

Fixpoint strip_prefix (w s : list ascii) : option (list ascii) :=
  match w with
  | [] => Some s
  | a :: w' =>
      match s with
      | c :: s' => if Ascii.eqb c a then strip_prefix w' s' else None
      | [] => None
      end
  end.

(** The payload is the JSON object with the two keys [ts] and [I], in this
    order, each holding a number. *)
Definition is_reading_object (p : list ascii) : bool :=
  match strip_prefix ts_key p with
  | Some r1 =>
      match json_number r1 with
      | Some r2 =>
          match strip_prefix I_key r2 with
          | Some r3 =>
              match json_number r3 with
              | Some r4 => list_eqb r4 (lit "}")
              | None => false
              end
          | None => false
          end
      | None => false
      end
  | None => false
  end.

(** The number of loop iterations among the inputs. *)
Fixpoint count_cycles (ins : list input) : nat :=
  match ins with
  | [] => O
  | Cycle _ :: t => S (count_cycles t)
  | Event _ _ :: t => count_cycles t
  end.

(** The state of [rand] after the two calls of one iteration. *)
Definition advance (L : rand_impl) (s : Z) : Z := snd (rand L (snd (rand L s))).

(** ** Vocabulary of the further properties *)

Definition is_cycle (i : input) : bool :=
  match i with Cycle _ => true | Event _ _ => false end.

Definition is_error_event (i : input) : bool :=
  match i with Event MQTT_EVENT_ERROR _ => true | _ => false end.

Definition is_delay (ev : event) : bool :=
  match ev with Delay _ => true | _ => false end.

(** The topics of the requests among [evs], in order. *)
Definition topics (evs : list event) : list (list ascii) :=
  flat_map (fun ev => match ev with Publish _ t _ _ _ _ => [t] | _ => [] end) evs.

(** The request of the serial channel in an iteration run with the handle
    [client]: one when the read brought bytes that [sscanf] accepts and the
    handle is initialised, none otherwise. *)
Definition serial_requests (c : cycle_in) (client : option Z) : list event :=
  if 0 <? fst (uart_read_bytes (rx c) (UART_BUF_SIZE - 1)) then
    match sscanf (serial_text c) FORMAT, client with
    | ScanCount [v], Some cl =>
        [Publish cl (lit "casa/Cocina/corriente") (payload_of (now (env_cocina c)) v) 0 1 0]
    | _, _ => []
    end
  else [].

(** The whole text of a payload, before [snprintf] cuts it to the buffer. *)
Definition payload_text (t : Z) (v : float) : list ascii :=
  ts_key ++ fmt_int (to_long_long t) ++ I_key ++ fmt_2f v ++ lit "}".

(** A request whose payload was not cut. *)
Definition whole_payload (ev : event) : Prop :=
  match ev with
  | Publish _ _ p _ _ _ =>
      (exists t v, p = payload_text t v) /\ (List.length p <= 75)%nat
  | _ => True
  end.

(** The same inputs with another result of the UART read. *)
Definition with_rx (c : cycle_in) (r : uart_result) : cycle_in :=
  {| rx := r; env_cocina := env_cocina c; env_sala := env_sala c;
     env_garage := env_garage c |}.

(** Two iterations' inputs that differ at most in the message ids that
    [esp_mqtt_client_publish] returns. *)
Definition same_but_msg_ids (c c' : cycle_in) : Prop :=
  rx c = rx c'
  /\ now (env_cocina c) = now (env_cocina c')
  /\ now (env_sala c) = now (env_sala c')
  /\ now (env_garage c) = now (env_garage c').

Definition no_nul (s : list ascii) : bool :=
  forallb (fun c => negb (Ascii.eqb c zero)) s.

(** ** Concrete inputs *)

Definition boot_1 : boot_env :=
  {| free_heap := 250000; idf_version := lit "v5.4.1"; startup_ok := true;
     timer_us := 1; mqtt_init := Some 7 |}.

(** The state in which the loop is entered after [boot_1]. *)
Definition st_1 : state :=
  mqtt_app_start (Some 7)
    {| g_client := None; rand_next := 1; session := Disconnected; trace := banner boot_1 |}.

(** The same with a failed [esp_mqtt_client_init]. *)
Definition st_null : state :=
  {| g_client := None; rand_next := 1; session := Disconnected; trace := [] |}.

Definition env_1 : pub_env := {| now := 1717000000; msg_id := 3 |}.

Definition cycle_with (r : uart_result) : cycle_in :=
  {| rx := r; env_cocina := env_1; env_sala := env_1; env_garage := env_1 |}.

(** An iteration in which the serial read times out. *)
Definition idle : cycle_in := cycle_with (UartBytes []).

(** A start in which [esp_mqtt_client_init] fails. *)
Definition boot_null : boot_env :=
  {| free_heap := 250000; idf_version := lit "v5.4.1"; startup_ok := true;
     timer_us := 1; mqtt_init := None |}.

Definition st_boot_null : state :=
  mqtt_app_start None
    {| g_client := None; rand_next := 1; session := Disconnected;
       trace := banner boot_null |}.

(** The inputs of [cycle_with], with a failed publish (message id -1). *)
Definition cycle_failing (r : uart_result) : cycle_in :=
  {| rx := r;
     env_cocina := {| now := 1717000000; msg_id := -1 |};
     env_sala := {| now := 1717000000; msg_id := -1 |};
     env_garage := {| now := 1717000000; msg_id := -1 |} |}.

(** A channel name of 58 characters. *)
Definition fase_58 : list ascii := repeat "y"%char 58.

(** A channel name of 49 characters. *)
Definition fase_49 : list ascii := repeat "x"%char 49.

(** * Facts about rounding *)

(** Closed goals on large constants are settled by evaluation. *)
Ltac by_eval := vm_compute; first [reflexivity | discriminate].

Lemma rne_nearest (n d m : Z) :
  0 < d -> Z.abs (rne n d * d - n) <= Z.abs (m * d - n).
Proof.
  intros Hd. unfold rne.
  pose proof (Z.div_mod n d ltac:(lia)) as E.
  pose proof (Z.mod_pos_bound n d Hd) as B.
  set (q := n / d) in *. set (r := n mod d) in *.
  assert (Hm : m <= q \/ q + 1 <= m) by lia.
  destruct (Z.compare_spec (2 * r) d) as [C|C|C]; [destruct (Z.even q)| |];
    destruct Hm; nia.
Qed.

Lemma rne_unique (n d m : Z) :
  0 < d -> 2 * Z.abs (m * d - n) <= d ->
  (2 * Z.abs (m * d - n) = d -> Z.even m = true) ->
  rne n d = m.
Proof.
  intros Hd Hc He. unfold rne.
  pose proof (Z.div_mod n d ltac:(lia)) as E.
  pose proof (Z.mod_pos_bound n d Hd) as B.
  set (q := n / d) in *. set (r := n mod d) in *.
  assert (Hm : m = q \/ m = q + 1) by nia.
  destruct (Z.compare_spec (2 * r) d) as [C|C|C].
  - assert (T : 2 * Z.abs (m * d - n) = d) by (destruct Hm; subst m; nia).
    specialize (He T).
    destruct Hm; subst m.
    + now rewrite He.
    + replace (q + 1) with (Z.succ q) in He by lia.
      rewrite Z.even_succ in He. rewrite <- Z.negb_even in He.
      destruct (Z.even q); [discriminate | lia].
  - destruct Hm; subst m; nia.
  - destruct Hm; subst m; nia.
Qed.

Lemma rne_exact (m d : Z) : 0 < d -> rne (m * d) d = m.
Proof.
  intros Hd. apply rne_unique; auto; replace (m * d - m * d) with 0 by lia; simpl; lia.
Qed.

Lemma rne_mono (n n' d : Z) : 0 < d -> n <= n' -> rne n d <= rne n' d.
Proof.
  intros Hd Hn.
  destruct (Z.eq_dec n n') as [->|Hne]; [lia|].
  pose proof (rne_nearest n d (rne n' d) Hd).
  pose proof (rne_nearest n' d (rne n d) Hd).
  nia.
Qed.

Lemma rne_nonneg (n d : Z) : 0 < d -> 0 <= n -> 0 <= rne n d.
Proof.
  intros Hd Hn. rewrite <- (rne_exact 0 d Hd). apply rne_mono; lia.
Qed.


Lemma ulp_pos (t : Z) : 0 < ulp t.
Proof. unfold ulp. apply Z.pow_pos_nonneg; lia. Qed.

Lemma ulp_small (t : Z) : t < 2 ^ 24 -> ulp t = 1.
Proof.
  intros H. unfold ulp.
  destruct (Z_le_gt_dec t 0) as [L|L].
  - rewrite Z.log2_nonpos by lia. reflexivity.
  - assert (Z.log2 t < 24) by (apply Z.log2_lt_pow2; lia).
    replace (Z.max 0 (Z.log2 t - 23)) with 0 by lia. reflexivity.
Qed.

Lemma ulp_binade (t k : Z) :
  23 <= k -> 2 ^ k <= t < 2 ^ (k + 1) -> ulp t = 2 ^ (k - 23).
Proof.
  intros Hk H. unfold ulp.
  assert (0 < 2 ^ k) by (apply Z.pow_pos_nonneg; lia).
  rewrite (Z.log2_unique t k) by lia.
  f_equal. lia.
Qed.

(** Every magnitude falls below [2^24] or into one binade [2^k, 2^(k+1)). *)
Lemma binade_cases (t : Z) :
  t < 2 ^ 24 \/ exists k, 24 <= k /\ 2 ^ k <= t < 2 ^ (k + 1).
Proof.
  destruct (Z_lt_ge_dec t (2 ^ 24)) as [L|L]; [now left|right].
  exists (Z.log2 t).
  assert (0 < t) by lia.
  pose proof (Z.log2_spec t H) as S.
  replace (Z.succ (Z.log2 t)) with (Z.log2 t + 1) in S by lia.
  split; [|exact S].
  apply Z.log2_le_pow2; lia.
Qed.

Lemma canonical_binade (x k : Z) :
  24 <= k -> canonical x -> 2 ^ k <= x <= 2 ^ (k + 1) ->
  exists m, x = 2 ^ (k - 23) * m.
Proof.
  intros Hk [Hx Hm] [Hl Hu].
  assert (P1 : 2 ^ (k + 1) = 2 ^ (k - 23) * 2 ^ 24).
  { rewrite <- Z.pow_add_r by lia. f_equal. lia. }
  destruct (Z.eq_dec x (2 ^ (k + 1))) as [->|Hne].
  - exists (2 ^ 24). exact P1.
  - rewrite (ulp_binade x k) in Hm by lia.
    exists (x / 2 ^ (k - 23)).
    assert (0 < 2 ^ (k - 23)) by (apply Z.pow_pos_nonneg; lia).
    pose proof (Z.div_mod x (2 ^ (k - 23)) ltac:(lia)). lia.
Qed.

Lemma div_binade (n d k : Z) :
  0 < d -> 2 ^ k <= n / d < 2 ^ (k + 1) -> 2 ^ k * d <= n < 2 ^ (k + 1) * d.
Proof.
  intros Hd H.
  pose proof (Z.div_mod n d ltac:(lia)).
  pose proof (Z.mod_pos_bound n d Hd). nia.
Qed.

Lemma pow2_split (k : Z) : 24 <= k ->
  2 ^ k = 2 ^ (k - 23) * 2 ^ 23 /\ 2 ^ (k + 1) = 2 ^ (k - 23) * 2 ^ 24 /\ 0 < 2 ^ (k - 23).
Proof.
  intros Hk. repeat split.
  - rewrite <- Z.pow_add_r by lia. f_equal. lia.
  - rewrite <- Z.pow_add_r by lia. f_equal. lia.
  - apply Z.pow_pos_nonneg; lia.
Qed.

(** [round_mag] returns a nearest magnitude among the canonical ones. *)
Lemma round_mag_nearest (n d x : Z) :
  0 <= n -> 0 < d -> canonical x ->
  Z.abs (round_mag n d * d - n) <= Z.abs (x * d - n).
Proof.
  intros Hn Hd Hx. unfold round_mag.
  destruct (binade_cases (n / d)) as [S|(k & Hk & B)].
  - rewrite (ulp_small _ S), Z.mul_1_r, Z.mul_1_l. now apply rne_nearest.
  - rewrite (ulp_binade _ k) by lia.
    destruct (pow2_split k Hk) as (P0 & P1 & Pu).
    pose proof (div_binade n d k Hd B) as Bn.
    set (u := 2 ^ (k - 23)) in *.
    assert (HD : 0 < d * u) by nia.
    assert (E : forall m, Z.abs (u * rne n (d * u) * d - n) <= Z.abs (m * (d * u) - n)).
    { intros m. replace (u * rne n (d * u) * d) with (rne n (d * u) * (d * u)) by ring.
      now apply rne_nearest. }
    destruct (Z_lt_ge_dec x (2 ^ k)) as [C1|C1].
    + specialize (E (2 ^ 23)). nia.
    + destruct (Z_lt_ge_dec (2 ^ (k + 1)) x) as [C2|C2].
      * specialize (E (2 ^ 24)). nia.
      * destruct (canonical_binade x k Hk Hx ltac:(lia)) as (m & ->).
        specialize (E m). fold u. replace (u * m * d) with (m * (d * u)) by ring. exact E.
Qed.

Lemma round_mag_nonneg (n d : Z) : 0 <= n -> 0 < d -> 0 <= round_mag n d.
Proof.
  intros Hn Hd. unfold round_mag.
  pose proof (ulp_pos (n / d)).
  assert (0 <= rne n (d * ulp (n / d))) by (apply rne_nonneg; nia).
  nia.
Qed.

Lemma canonical_small (t : Z) : 0 <= t <= 2 ^ 24 -> canonical t.
Proof.
  intros [H0 H1]. split; [exact H0|].
  destruct (Z.eq_dec t (2 ^ 24)) as [->|Hne]; [reflexivity|].
  rewrite ulp_small by lia. apply Z.mod_1_r.
Qed.

Lemma canonical_mul (k m : Z) :
  24 <= k -> 2 ^ 23 <= m <= 2 ^ 24 -> canonical (2 ^ (k - 23) * m).
Proof.
  intros Hk Hm.
  destruct (pow2_split k Hk) as (P0 & P1 & Pu).
  split; [nia|].
  destruct (Z.eq_dec m (2 ^ 24)) as [->|Hne].
  - rewrite <- P1. rewrite (ulp_binade _ (k + 1)).
    + replace (2 ^ (k + 1 - 23)) with (2 ^ (k - 23) * 2).
      * rewrite P1.
        replace (2 ^ (k - 23) * 2 ^ 24) with (2 ^ 23 * (2 ^ (k - 23) * 2))
          by (change (2 ^ 24) with (2 ^ 23 * 2); ring).
        apply Z.mod_mul. lia.
      * replace (k + 1 - 23) with (k - 23 + 1) by lia.
        rewrite Z.pow_add_r by lia. reflexivity.
    + lia.
    + split; [lia|]. apply Z.pow_lt_mono_r; lia.
  - rewrite (ulp_binade _ k); try lia; [|nia].
    rewrite Z.mul_comm. apply Z.mod_mul. lia.
Qed.

Lemma canonical_round_mag (n d : Z) : 0 <= n -> 0 < d -> canonical (round_mag n d).
Proof.
  intros Hn Hd. unfold round_mag.
  destruct (binade_cases (n / d)) as [S|(k & Hk & B)].
  - rewrite (ulp_small _ S), Z.mul_1_r, Z.mul_1_l.
    apply canonical_small. split; [now apply rne_nonneg|].
    rewrite <- (rne_exact (2 ^ 24) d Hd). apply rne_mono; auto.
    pose proof (Z.div_mod n d ltac:(lia)). pose proof (Z.mod_pos_bound n d Hd). nia.
  - rewrite (ulp_binade _ k) by lia.
    destruct (pow2_split k Hk) as (P0 & P1 & Pu).
    pose proof (div_binade n d k Hd B) as Bn.
    apply canonical_mul; auto.
    set (u := 2 ^ (k - 23)) in *.
    assert (HD : 0 < d * u) by nia.
    split.
    + rewrite <- (rne_exact (2 ^ 23) (d * u) HD). apply rne_mono; auto. nia.
    + rewrite <- (rne_exact (2 ^ 24) (d * u) HD). apply rne_mono; auto. nia.
Qed.

(** Rounding stays between canonical bounds of the exact value. *)
Lemma round_mag_between (n d a b : Z) :
  0 <= n -> 0 < d -> canonical a -> canonical b ->
  a * d <= n <= b * d -> a <= round_mag n d <= b.
Proof.
  intros Hn Hd Ha Hb H.
  pose proof (round_mag_nearest n d a Hn Hd Ha).
  pose proof (round_mag_nearest n d b Hn Hd Hb).
  nia.
Qed.


Lemma round_mag_exact (t : Z) : canonical t -> round_mag t 1 = t.
Proof.
  intros Ht.
  pose proof (round_mag_between t 1 t t (proj1 Ht) ltac:(lia) Ht Ht ltac:(lia)). lia.
Qed.

(** * Facts about the float operations *)


Lemma canonical_0 : canonical 0.
Proof. apply canonical_small. vm_compute. split; discriminate. Qed.













(** The synthetic readings, for a C library whose [RAND_MAX] is a positive
    [int]. *)
Section SyntheticRange.

Variable L : rand_impl.
Hypothesis RAND_MAX_int : 0 < RAND_MAX L <= 2147483647.




End SyntheticRange.


(** * Facts about the trace *)

Lemma skipn_length_app {A : Type} (l x : list A) : skipn (List.length l) (l ++ x) = x.
Proof. induction l; simpl; auto. Qed.

Lemma new_events_app (st st' : state) (l : list event) :
  trace st' = trace st ++ l -> new_events st st' = l.
Proof. intros H. unfold new_events. rewrite H. apply skipn_length_app. Qed.

Lemma publish_corriente_trace (e : pub_env) (fase : list ascii) (v : float) (st : state) :
  trace (publish_corriente e fase v st)
  = trace st ++ publish_effects (g_client st) e fase v.
Proof.
  unfold publish_corriente, publish_effects.
  destruct (g_client st); cbn [ESP_LOGI ESP_LOGW emit trace]; [|reflexivity].
  rewrite <- app_assoc. reflexivity.
Qed.

Lemma publish_corriente_frame (e : pub_env) (fase : list ascii) (v : float) (st : state) :
  g_client (publish_corriente e fase v st) = g_client st
  /\ rand_next (publish_corriente e fase v st) = rand_next st
  /\ session (publish_corriente e fase v st) = session st.
Proof.
  unfold publish_corriente, ESP_LOGI, ESP_LOGW.
  destruct (g_client st) eqn:E; cbn [emit g_client rand_next session]; auto.
Qed.

Lemma publishes_app (a b : list event) : publishes (a ++ b) = publishes a ++ publishes b.
Proof. apply filter_app. Qed.

Lemma publishes_effects (client : option Z) (e : pub_env) (fase : list ascii) (v : float) :
  publishes (publish_effects client e fase v)
  = match client with
    | None => []
    | Some cl => [Publish cl (topic_of fase) (payload_of (now e) v) 0 1 0]
    end.
Proof. destruct client; reflexivity. Qed.

(** C9. With the global handle still NULL, [publish_corriente] hands nothing
    to the client library and changes nothing but the log, to which it adds
    one warning, whatever the channel and the value. *)
Theorem C9_null_handle (e : pub_env) (fase : list ascii) (v : float) (st : state) :
  g_client st = None ->
  new_events st (publish_corriente e fase v st)
  = [Log ESP_LOG_WARN TAG (lit "Cliente MQTT no inicializado, omitiendo publicación")]
  /\ publishes (new_events st (publish_corriente e fase v st)) = []
  /\ g_client (publish_corriente e fase v st) = None
  /\ rand_next (publish_corriente e fase v st) = rand_next st
  /\ session (publish_corriente e fase v st) = session st.
Proof.
  intros H.
  assert (E : new_events st (publish_corriente e fase v st)
              = publish_effects None e fase v).
  { apply new_events_app. rewrite publish_corriente_trace, H. reflexivity. }
  rewrite E. destruct (publish_corriente_frame e fase v st) as (F1 & F2 & F3).
  rewrite F1, F2, F3. auto.
Qed.

Lemma C9_witness :
  g_client st_null = None
  /\ publishes (new_events st_null
                  (publish_corriente env_1 (lit "Sala") (of_decimal false 125 (-2)) st_null))
     = [].
Proof.
  split; [reflexivity|].
  exact (proj1 (proj2 (C9_null_handle env_1 (lit "Sala") (of_decimal false 125 (-2))
                         st_null eq_refl))).
Defined.

(** C1, as the code has it.  [publish_corriente] is gated by the global
    handle alone: with a handle it issues the request, whatever the state of
    the session; without one it drops the reading and logs a warning.  In
    both cases the program state keeps no copy of the reading. *)
Theorem C1_gate_is_the_handle (e : pub_env) (fase : list ascii) (v : float) (st : state) :
  new_events st (publish_corriente e fase v st)
  = match g_client st with
    | None =>
        [Log ESP_LOG_WARN TAG (lit "Cliente MQTT no inicializado, omitiendo publicación")]
    | Some cl =>
        [Publish cl (topic_of fase) (payload_of (now e) v) 0 1 0;
         Log ESP_LOG_INFO TAG
           (lit "Publicado msg_id=" ++ fmt_int (msg_id e) ++ lit " Tema=" ++ topic_of fase
              ++ lit " Payload=" ++ payload_of (now e) v)]
    end
  /\ g_client (publish_corriente e fase v st) = g_client st
  /\ rand_next (publish_corriente e fase v st) = rand_next st
  /\ session (publish_corriente e fase v st) = session st.
Proof.
  split; [|apply publish_corriente_frame].
  apply new_events_app. apply publish_corriente_trace.
Qed.

(** C1 fails as stated: entered right after [mqtt_app_start], while the
    session is still being set up, the call issues a request. *)
Lemma C1_counterexample :
  app_main_start lcg64 boot_1 = Some st_1
  /\ session st_1 <> Connected
  /\ publishes (new_events st_1
                  (publish_corriente env_1 (lit "Sala") (of_decimal false 125 (-2)) st_1))
     = [Publish 7 (lit "casa/Sala/corriente")
          (ts_key ++ lit "1717000000" ++ I_key ++ lit "1.25}") 0 1 0].
Proof. split; [reflexivity|]. split; [discriminate | by_eval]. Qed.

Lemma synthetic_part_trace (L : rand_impl) (c : cycle_in) (st : state) :
  trace (synthetic_part L c st)
  = trace st
      ++ publish_effects (g_client st) (env_sala c) (lit "Sala") (sala_of L (fst (draws L st)))
      ++ [Log ESP_LOG_INFO TAG
            (lit "Corriente publicada (Sala): " ++ fmt_2f (sala_of L (fst (draws L st)))
               ++ lit " A")]
      ++ publish_effects (g_client st) (env_garage c) (lit "Garage")
           (garage_of L (snd (draws L st)))
      ++ [Log ESP_LOG_INFO TAG
            (lit "Corriente publicada (Garage): " ++ fmt_2f (garage_of L (snd (draws L st)))
               ++ lit " A")].
Proof.
  unfold synthetic_part, draws.
  destruct (rand L (rand_next st)) as [r1 n1]. cbn [fst snd].
  destruct (rand L n1) as [r2 n2]. cbn [fst snd].
  unfold ESP_LOGI. cbn [emit trace].
  rewrite publish_corriente_trace. cbn [emit trace g_client].
  rewrite publish_corriente_trace. cbn [emit trace g_client].
  destruct (publish_corriente_frame (env_sala c) (lit "Sala") (sala_of L r1)
              {| g_client := g_client st; rand_next := n2; session := session st;
                 trace := trace st |}) as (-> & _ & _).
  cbn [g_client]. rewrite <- !app_assoc. reflexivity.
Qed.

Lemma synthetic_part_frame (L : rand_impl) (c : cycle_in) (st : state) :
  g_client (synthetic_part L c st) = g_client st
  /\ session (synthetic_part L c st) = session st
  /\ rand_next (synthetic_part L c st) = snd (rand L (snd (rand L (rand_next st)))).
Proof.
  unfold synthetic_part.
  destruct (rand L (rand_next st)) as [r1 n1]. cbn [fst snd].
  destruct (rand L n1) as [r2 n2]. cbn [fst snd].
  unfold ESP_LOGI. cbn [emit g_client session rand_next].
  repeat match goal with
  | |- context [publish_corriente ?e ?f ?v ?s] =>
      destruct (publish_corriente_frame e f v s) as (-> & -> & ->);
      cbn [emit g_client session rand_next]
  end.
  auto.
Qed.

(** The effects of the serial part: one log line, preceded by the effects of
    [publish_corriente] when a value was read. *)
Lemma serial_part_cases (c : cycle_in) (st : state) :
  (exists msg, serial_part c st = ESP_LOGW msg st
               /\ forall v, sscanf (serial_text c) FORMAT <> ScanCount [v]
                            \/ fst (uart_read_bytes (rx c) (UART_BUF_SIZE - 1)) <= 0)
  \/ (exists v, sscanf (serial_text c) FORMAT = ScanCount [v]
                /\ 0 < fst (uart_read_bytes (rx c) (UART_BUF_SIZE - 1))
                /\ serial_part c st
                   = ESP_LOGI (lit "Corriente publicada: " ++ fmt_2f v ++ lit " A")
                       (publish_corriente (env_cocina c) (lit "Cocina") v st)).
Proof.
  unfold serial_part, serial_text.
  destruct (uart_read_bytes (rx c) (UART_BUF_SIZE - 1)) as [len buf]. cbn [fst snd].
  destruct (Z.ltb_spec 0 len) as [Hl|Hl].
  - destruct (sscanf (c_str buf) FORMAT) as [|[|v [|w vs]]] eqn:E.
    + left. eexists. split; [reflexivity|]. intros v. left. discriminate.
    + left. eexists. split; [reflexivity|]. intros v. left. discriminate.
    + right. exists v. auto.
    + left. eexists. split; [reflexivity|]. intros v'. left. discriminate.
  - left. eexists. split; [reflexivity|]. intros v. right. lia.
Qed.

Lemma serial_part_frame (c : cycle_in) (st : state) :
  g_client (serial_part c st) = g_client st
  /\ rand_next (serial_part c st) = rand_next st
  /\ session (serial_part c st) = session st.
Proof.
  destruct (serial_part_cases c st) as [(msg & -> & _)|(v & _ & _ & ->)].
  - cbn. auto.
  - unfold ESP_LOGI. cbn [emit g_client rand_next session].
    apply publish_corriente_frame.
Qed.

(** What one iteration hands to the client library: the request of the
    serial channel, if a value was read, and those of the synthetic ones. *)
Lemma cycle_publishes (L : rand_impl) (c : cycle_in) (st : state) :
  publishes (new_events st (cycle L c st))
  = publishes (new_events st (serial_part c st)) ++ synthetic_requests L c st.
Proof.
  destruct (serial_part_frame c st) as (G & R & _).
  assert (T : exists l, trace (serial_part c st) = trace st ++ l).
  { destruct (serial_part_cases c st) as [(msg & -> & _)|(v & _ & _ & ->)].
    - eexists. reflexivity.
    - unfold ESP_LOGI. cbn [emit trace]. rewrite publish_corriente_trace.
      rewrite <- app_assoc. eexists. reflexivity. }
  destruct T as (l & T).
  rewrite (new_events_app _ _ _ T).
  erewrite new_events_app.
  2:{ unfold cycle. cbn [emit trace]. rewrite synthetic_part_trace, T.
      rewrite <- !app_assoc. reflexivity. }
  rewrite !publishes_app, !publishes_effects, G.
  unfold synthetic_requests, draws. rewrite R.
  destruct (g_client st); cbn [app]; rewrite ?app_nil_r; reflexivity.
Qed.

Lemma cycle_trace (L : rand_impl) (c : cycle_in) (st : state) :
  trace (cycle L c st)
  = trace (serial_part c st)
      ++ publish_effects (g_client st) (env_sala c) (lit "Sala")
           (sala_of L (fst (draws L st)))
      ++ [Log ESP_LOG_INFO TAG
            (lit "Corriente publicada (Sala): " ++ fmt_2f (sala_of L (fst (draws L st)))
               ++ lit " A")]
      ++ publish_effects (g_client st) (env_garage c) (lit "Garage")
           (garage_of L (snd (draws L st)))
      ++ [Log ESP_LOG_INFO TAG
            (lit "Corriente publicada (Garage): " ++ fmt_2f (garage_of L (snd (draws L st)))
               ++ lit " A")]
      ++ [Delay 5000].
Proof.
  destruct (serial_part_frame c st) as (G & R & _).
  unfold cycle. cbn [emit trace]. rewrite synthetic_part_trace.
  unfold draws. rewrite G, R. rewrite <- !app_assoc. reflexivity.
Qed.

Lemma serial_part_trace (c : cycle_in) (st : state) :
  exists l, trace (serial_part c st) = trace st ++ l /\ Forall at_least_once l.
Proof.
  destruct (serial_part_cases c st) as [(msg & -> & _)|(v & _ & _ & ->)].
  - eexists. split; [reflexivity|]. repeat constructor.
  - unfold ESP_LOGI. cbn [emit trace]. rewrite publish_corriente_trace, <- app_assoc.
    eexists. split; [reflexivity|].
    destruct (g_client st); repeat constructor.
Qed.

Lemma step_trace (L : rand_impl) (st : state) (i : input) :
  exists l, trace (step L st i) = trace st ++ l /\ Forall at_least_once l.
Proof.
  destruct i as [c|id ev]; cbn [step].
  - rewrite cycle_trace.
    destruct (serial_part_trace c st) as (l & -> & Hl).
    rewrite <- app_assoc. eexists. split; [reflexivity|].
    apply Forall_app. split; [exact Hl|].
    destruct (g_client st); repeat constructor.
  - destruct id; eexists; (split; [reflexivity|]); repeat constructor.
Qed.

Lemma run_at_least_once (L : rand_impl) (ins : list input) (st : state) :
  Forall at_least_once (trace st) -> Forall at_least_once (trace (run L ins st)).
Proof.
  revert st. induction ins as [|i ins IH]; intros st H; [exact H|].
  cbn [run fold_left]. apply IH.
  destruct (step_trace L st i) as (l & -> & Hl).
  apply Forall_app. auto.
Qed.

(** C4. Whatever the loop reads and whatever the broker reports, every
    request that the program hands to [esp_mqtt_client_publish] asks for
    QoS 1 and leaves the retain flag unset. *)
Theorem C4_qos1_no_retain (L : rand_impl) (b : boot_env) (st0 : state) (ins : list input) :
  app_main_start L b = Some st0 ->
  Forall at_least_once (trace (run L ins st0)).
Proof.
  intros H. apply run_at_least_once.
  unfold app_main_start in H. destruct (startup_ok b); [|discriminate].
  injection H as <-. repeat constructor.
Qed.

Lemma C4_witness :
  app_main_start lcg64 boot_1 = Some st_1
  /\ Forall at_least_once
       (trace (run lcg64 [Cycle (cycle_with (UartBytes (lit "Current reading: 12.34 A")))]
                 st_1)).
Proof.
  split; [reflexivity|].
  exact (C4_qos1_no_retain lcg64 boot_1 st_1
           [Cycle (cycle_with (UartBytes (lit "Current reading: 12.34 A")))] eq_refl).
Defined.

Lemma synthetic_effects_quiet (client : option Z) (e : pub_env) (fase : list ascii)
    (v : float) :
  existsb is_error_log (publish_effects client e fase v) = false.
Proof. destruct client; reflexivity. Qed.

(** The effects of the synthetic part carry no error and nothing of the
    serial channel. *)
Lemma synthetic_tail_quiet (L : rand_impl) (c : cycle_in) (st : state) (f : event -> bool) :
  f = is_error_log \/ f = on_channel (lit "Cocina") ->
  existsb f
    (publish_effects (g_client st) (env_sala c) (lit "Sala") (sala_of L (fst (draws L st)))
       ++ [Log ESP_LOG_INFO TAG
             (lit "Corriente publicada (Sala): " ++ fmt_2f (sala_of L (fst (draws L st)))
                ++ lit " A")]
       ++ publish_effects (g_client st) (env_garage c) (lit "Garage")
            (garage_of L (snd (draws L st)))
       ++ [Log ESP_LOG_INFO TAG
             (lit "Corriente publicada (Garage): "
                ++ fmt_2f (garage_of L (snd (draws L st))) ++ lit " A")]
       ++ [Delay 5000]) = false.
Proof.
  intros [-> | ->]; destruct (g_client st); reflexivity.
Qed.

(** An iteration whose serial part only logs the warning [msg]. *)
Lemma cycle_without_reading (L : rand_impl) (c : cycle_in) (st : state) (msg : list ascii) :
  serial_part c st = ESP_LOGW msg st ->
  new_events st (cycle L c st)
  = [Log ESP_LOG_WARN TAG msg]
      ++ publish_effects (g_client st) (env_sala c) (lit "Sala")
           (sala_of L (fst (draws L st)))
      ++ [Log ESP_LOG_INFO TAG
            (lit "Corriente publicada (Sala): " ++ fmt_2f (sala_of L (fst (draws L st)))
               ++ lit " A")]
      ++ publish_effects (g_client st) (env_garage c) (lit "Garage")
           (garage_of L (snd (draws L st)))
      ++ [Log ESP_LOG_INFO TAG
            (lit "Corriente publicada (Garage): " ++ fmt_2f (garage_of L (snd (draws L st)))
               ++ lit " A")]
      ++ [Delay 5000]
  /\ existsb is_error_log (new_events st (cycle L c st)) = false
  /\ existsb (on_channel (lit "Cocina")) (new_events st (cycle L c st)) = false
  /\ publishes (new_events st (cycle L c st)) = synthetic_requests L c st.
Proof.
  intros H.
  assert (E : new_events st (cycle L c st)
              = [Log ESP_LOG_WARN TAG msg]
                  ++ publish_effects (g_client st) (env_sala c) (lit "Sala")
                       (sala_of L (fst (draws L st)))
                  ++ [Log ESP_LOG_INFO TAG
                        (lit "Corriente publicada (Sala): "
                           ++ fmt_2f (sala_of L (fst (draws L st))) ++ lit " A")]
                  ++ publish_effects (g_client st) (env_garage c) (lit "Garage")
                       (garage_of L (snd (draws L st)))
                  ++ [Log ESP_LOG_INFO TAG
                        (lit "Corriente publicada (Garage): "
                           ++ fmt_2f (garage_of L (snd (draws L st))) ++ lit " A")]
                  ++ [Delay 5000]).
  { apply new_events_app. rewrite cycle_trace, H. cbn [ESP_LOGW emit trace].
    rewrite <- !app_assoc. reflexivity. }
  split; [exact E|].
  split; [|split].
  - rewrite E. cbn [app existsb is_error_log orb].
    apply (synthetic_tail_quiet L c st). auto.
  - rewrite E. cbn [app existsb on_channel orb].
    apply (synthetic_tail_quiet L c st). auto.
  - rewrite cycle_publishes. erewrite (new_events_app st (serial_part c st)).
    2:{ rewrite H. reflexivity. }
    reflexivity.
Qed.

(** The effects of an iteration whose read returned no byte, whatever the
    handle. *)
Lemma zero_bytes_cycle (L : rand_impl) (c : cycle_in) (st : state) :
  fst (uart_read_bytes (rx c) (UART_BUF_SIZE - 1)) = 0 ->
  new_events st (cycle L c st)
  = [Log ESP_LOG_WARN TAG (lit "No hubo datos en UART dentro del timeout")]
      ++ publish_effects (g_client st) (env_sala c) (lit "Sala")
           (sala_of L (fst (draws L st)))
      ++ [Log ESP_LOG_INFO TAG
            (lit "Corriente publicada (Sala): " ++ fmt_2f (sala_of L (fst (draws L st)))
               ++ lit " A")]
      ++ publish_effects (g_client st) (env_garage c) (lit "Garage")
           (garage_of L (snd (draws L st)))
      ++ [Log ESP_LOG_INFO TAG
            (lit "Corriente publicada (Garage): " ++ fmt_2f (garage_of L (snd (draws L st)))
               ++ lit " A")]
      ++ [Delay 5000]
  /\ existsb is_error_log (new_events st (cycle L c st)) = false
  /\ existsb (on_channel (lit "Cocina")) (new_events st (cycle L c st)) = false
  /\ publishes (new_events st (cycle L c st)) = synthetic_requests L c st.
Proof.
  intros H. apply cycle_without_reading.
  unfold serial_part.
  destruct (uart_read_bytes (rx c) (UART_BUF_SIZE - 1)) as [len buf].
  cbn [fst] in H. subst len. reflexivity.
Qed.

(** C6, as the code has it.  When the bounded read returns no byte, the
    iteration logs a warning and no error, issues nothing for the serial
    channel, and, the handle being initialised, issues the request of Sala
    and then the request of Garage, each with QoS 1 and the value just
    drawn. *)
Theorem C6_zero_bytes_with_handle (L : rand_impl) (c : cycle_in) (st : state) (cl : Z) :
  fst (uart_read_bytes (rx c) (UART_BUF_SIZE - 1)) = 0 ->
  g_client st = Some cl ->
  new_events st (serial_part c st)
  = [Log ESP_LOG_WARN TAG (lit "No hubo datos en UART dentro del timeout")]
  /\ existsb is_error_log (new_events st (cycle L c st)) = false
  /\ existsb (on_channel (lit "Cocina")) (new_events st (cycle L c st)) = false
  /\ publishes (new_events st (cycle L c st))
     = [Publish cl (lit "casa/Sala/corriente")
          (payload_of (now (env_sala c)) (sala_of L (fst (draws L st)))) 0 1 0;
        Publish cl (lit "casa/Garage/corriente")
          (payload_of (now (env_garage c)) (garage_of L (snd (draws L st)))) 0 1 0].
Proof.
  intros H Hg.
  destruct (zero_bytes_cycle L c st H) as (_ & He & Hc & Hp).
  split; [|split; [exact He|split; [exact Hc|]]].
  - apply new_events_app. unfold serial_part.
    destruct (uart_read_bytes (rx c) (UART_BUF_SIZE - 1)) as [len buf].
    cbn [fst] in H. subst len. reflexivity.
  - rewrite Hp. unfold synthetic_requests. rewrite Hg. reflexivity.
Qed.

Lemma C6_witness :
  (fst (uart_read_bytes (rx idle) (UART_BUF_SIZE - 1)) = 0 /\ g_client st_1 = Some 7)
  /\ publishes (new_events st_1 (cycle lcg64 idle st_1))
     = [Publish 7 (lit "casa/Sala/corriente")
          (payload_of (now (env_sala idle)) (sala_of lcg64 (fst (draws lcg64 st_1)))) 0 1 0;
        Publish 7 (lit "casa/Garage/corriente")
          (payload_of (now (env_garage idle)) (garage_of lcg64 (snd (draws lcg64 st_1))))
          0 1 0].
Proof.
  split; [split; reflexivity|].
  exact (proj2 (proj2 (proj2 (C6_zero_bytes_with_handle lcg64 idle st_1 7
                                eq_refl eq_refl)))).
Defined.

(** C6 fails as stated: when [esp_mqtt_client_init] has failed, the loop is
    entered with a NULL handle, and an iteration whose read returns no byte
    publishes neither Sala nor Garage. *)
Lemma C6_counterexample :
  app_main_start lcg64 boot_null = Some st_boot_null
  /\ fst (uart_read_bytes (rx idle) (UART_BUF_SIZE - 1)) = 0
  /\ publishes (new_events st_boot_null (cycle lcg64 idle st_boot_null)) = [].
Proof. split; [reflexivity|]. split; [reflexivity | by_eval]. Qed.

(** * Facts about [sscanf] *)

Lemma FORMAT_directives :
  parse_format FORMAT
  = map DLit (lit "Current") ++ DSpace :: map DLit (lit "reading:")
      ++ [DSpace; DFloat; DSpace; DLit "A"%char].
Proof. reflexivity. Qed.

Lemma scan_stop_cases (b : bool) :
  scan_stop b [] = ScanEOF \/ scan_stop b [] = ScanCount [].
Proof. destruct b; cbn; auto. Qed.

Lemma strip_prefix_app (w r : list ascii) : strip_prefix w (w ++ r) = Some r.
Proof.
  induction w as [|a w IH]; cbn; [reflexivity|].
  rewrite Ascii.eqb_refl. exact IH.
Qed.

Lemma strip_prefix_some (w s r : list ascii) : strip_prefix w s = Some r -> s = w ++ r.
Proof.
  revert s. induction w as [|a w IH]; intros s H; cbn in H.
  - injection H as ->. reflexivity.
  - destruct s as [|c s]; [discriminate|].
    destruct (Ascii.eqb_spec c a) as [->|]; [|discriminate].
    cbn. f_equal. auto.
Qed.

(** Literal directives consume exactly their text, or stop the scan. *)
Lemma scan_lits (w : list ascii) (ds : list directive) (s : list ascii) (vals : list float) :
  match strip_prefix w s with
  | Some rest => scan_directives (map DLit w ++ ds) s vals = scan_directives ds rest vals
  | None => exists b, scan_directives (map DLit w ++ ds) s vals = scan_stop b vals
  end.
Proof.
  revert s. induction w as [|a w IH]; intros s; cbn; [reflexivity|].
  destruct s as [|c s]; [now exists true|].
  destruct (Ascii.eqb c a); [apply IH | now exists false].
Qed.

Lemma skip_ws_split (s : list ascii) :
  exists ws, s = ws ++ skip_ws s /\ forallb isspace ws = true.
Proof.
  induction s as [|c s (ws & E & F)]; [now exists []|].
  cbn. destruct (isspace c) eqn:C.
  - exists (c :: ws). split; [cbn; f_equal; exact E | cbn; now rewrite C, F].
  - now exists [].
Qed.

Lemma skip_ws_app (ws r : list ascii) :
  forallb isspace ws = true -> skip_ws (ws ++ r) = skip_ws r.
Proof.
  induction ws as [|c ws IH]; cbn; [reflexivity|].
  intros H. apply andb_true_iff in H as [-> H]. auto.
Qed.

Lemma skip_ws_idem (s : list ascii) : skip_ws (skip_ws s) = skip_ws s.
Proof.
  induction s as [|c s IH]; cbn; [reflexivity|].
  destruct (isspace c) eqn:C; [exact IH|]. cbn. now rewrite C.
Qed.

Lemma scan_digits_stop (s : list ascii) (acc cnt : Z) :
  starts_with_digit s = false -> scan_digits s acc cnt = (acc, cnt, s).
Proof. destruct s as [|c s]; cbn; [reflexivity|]. now intros ->. Qed.

(** A text that does not start a number is a matching failure of [%f]. *)
Lemma scan_float_none (s : list ascii) : numeric_start s = false -> scan_float s = None.
Proof.
  unfold numeric_start, scan_float.
  destruct (scan_sign s) as [neg s1]. cbn [snd].
  destruct s1 as [|c t]; [reflexivity|].
  intros H.
  apply orb_false_iff in H as [H Hnan].
  apply orb_false_iff in H as [H Hinf].
  apply orb_false_iff in H as [Hd Hp].
  destruct (match_ci (lit "inf") (c :: t)); [discriminate|].
  destruct (match_ci (lit "nan") (c :: t)); [discriminate|].
  cbn [scan_digits]. rewrite Hd.
  destruct (Ascii.eqb c ".") eqn:Ec; [|reflexivity].
  cbn [andb] in Hp.
  rewrite scan_digits_stop by (destruct t; auto).
  reflexivity.
Qed.

(** Malformed frames are rejected before anything is assigned. *)
Lemma sscanf_malformed (s : list ascii) :
  malformed s -> sscanf s FORMAT = ScanEOF \/ sscanf s FORMAT = ScanCount [].
Proof.
  intros M. unfold sscanf. rewrite FORMAT_directives.
  destruct M as [|s H|ws rest Hws Hnum].
  - left. reflexivity.
  - pose proof (scan_lits (lit "Current")
                  (DSpace :: map DLit (lit "reading:")
                     ++ [DSpace; DFloat; DSpace; DLit "A"%char]) s []) as P.
    destruct (strip_prefix (lit "Current") s) as [r1|] eqn:E1.
    2:{ destruct P as (b & ->). apply scan_stop_cases. }
    rewrite P. cbn [scan_directives].
    pose proof (scan_lits (lit "reading:") [DSpace; DFloat; DSpace; DLit "A"%char]
                  (skip_ws r1) []) as Q.
    destruct (strip_prefix (lit "reading:") (skip_ws r1)) as [r2|] eqn:E2.
    2:{ destruct Q as (b & ->). apply scan_stop_cases. }
    exfalso.
    destruct (skip_ws_split r1) as (ws & Er & Hws).
    apply (H ws r2 Hws).
    apply strip_prefix_some in E1, E2. rewrite E1 at 1. rewrite Er at 1. now rewrite E2.
  - pose proof (scan_lits (lit "Current")
                  (DSpace :: map DLit (lit "reading:")
                     ++ [DSpace; DFloat; DSpace; DLit "A"%char])
                  (lit "Current" ++ ws ++ lit "reading:" ++ rest) []) as P.
    rewrite strip_prefix_app in P. rewrite P. cbn [scan_directives].
    rewrite (skip_ws_app ws _ Hws).
    change (skip_ws (lit "reading:" ++ rest)) with (lit "reading:" ++ rest).
    pose proof (scan_lits (lit "reading:") [DSpace; DFloat; DSpace; DLit "A"%char]
                  (lit "reading:" ++ rest) []) as Q.
    rewrite strip_prefix_app in Q. rewrite Q. cbn [scan_directives].
    rewrite skip_ws_idem.
    destruct (skip_ws rest) as [|c t] eqn:E; [left; reflexivity|].
    rewrite (scan_float_none _ Hnum). right. reflexivity.
Qed.

(** The effects of an iteration whose frame [sscanf] rejects, whatever the
    handle. *)
Lemma malformed_frame_cycle (L : rand_impl) (c : cycle_in) (st : state) :
  malformed (serial_text c) ->
  (sscanf (serial_text c) FORMAT = ScanEOF \/ sscanf (serial_text c) FORMAT = ScanCount [])
  /\ (exists msg, new_events st (serial_part c st) = [Log ESP_LOG_WARN TAG msg])
  /\ existsb (on_channel (lit "Cocina")) (new_events st (cycle L c st)) = false
  /\ publishes (new_events st (cycle L c st)) = synthetic_requests L c st.
Proof.
  intros M. pose proof (sscanf_malformed _ M) as F.
  split; [exact F|].
  destruct (serial_part_cases c st) as [(msg & E & _)|(v & E & _)].
  - split.
    + exists msg. apply new_events_app. rewrite E. reflexivity.
    + apply (cycle_without_reading L c st msg E).
  - destruct F as [F|F]; rewrite F in E; discriminate.
Qed.

(** C5, as the code has it.  A frame that the format does not match (no
    text at all, a text that does not begin with [Current], optional white
    space and [reading:], or one that carries after this prefix nothing that
    [%f] can start to read as a number) makes [sscanf] fail with nothing
    assigned; the iteration then logs a warning, issues nothing for the
    serial channel and, the handle being initialised, still issues the
    requests of Sala and of Garage. *)
Theorem C5_rejected_frame (L : rand_impl) (c : cycle_in) (st : state) (cl : Z) :
  malformed (serial_text c) ->
  g_client st = Some cl ->
  (sscanf (serial_text c) FORMAT = ScanEOF \/ sscanf (serial_text c) FORMAT = ScanCount [])
  /\ (exists msg, new_events st (serial_part c st) = [Log ESP_LOG_WARN TAG msg])
  /\ existsb (on_channel (lit "Cocina")) (new_events st (cycle L c st)) = false
  /\ publishes (new_events st (cycle L c st))
     = [Publish cl (lit "casa/Sala/corriente")
          (payload_of (now (env_sala c)) (sala_of L (fst (draws L st)))) 0 1 0;
        Publish cl (lit "casa/Garage/corriente")
          (payload_of (now (env_garage c)) (garage_of L (snd (draws L st)))) 0 1 0].
Proof.
  intros M Hg.
  destruct (malformed_frame_cycle L c st M) as (F & W & Hc & Hp).
  split; [exact F|]. split; [exact W|]. split; [exact Hc|].
  rewrite Hp. unfold synthetic_requests. rewrite Hg. reflexivity.
Qed.

Lemma C5_witness :
  (malformed (serial_text (cycle_with (UartBytes (lit "garbage")))) /\ g_client st_1 = Some 7)
  /\ publishes (new_events st_1 (cycle lcg64 (cycle_with (UartBytes (lit "garbage"))) st_1))
     = [Publish 7 (lit "casa/Sala/corriente")
          (payload_of (now (env_sala (cycle_with (UartBytes (lit "garbage")))))
             (sala_of lcg64 (fst (draws lcg64 st_1)))) 0 1 0;
        Publish 7 (lit "casa/Garage/corriente")
          (payload_of (now (env_garage (cycle_with (UartBytes (lit "garbage")))))
             (garage_of lcg64 (snd (draws lcg64 st_1)))) 0 1 0].
Proof.
  assert (M : malformed (serial_text (cycle_with (UartBytes (lit "garbage"))))).
  { apply malformed_prefix. intros ws rest _. vm_compute. discriminate. }
  split; [split; [exact M | reflexivity]|].
  exact (proj2 (proj2 (proj2 (C5_rejected_frame lcg64
                                (cycle_with (UartBytes (lit "garbage"))) st_1 7
                                M eq_refl)))).
Defined.

(** C5 fails as stated, twice over.  With a NULL handle a frame of garbage is
    rejected and yet neither Sala nor Garage is published; and a frame whose
    prefix is not the template's, [Currentreading:5], is accepted and
    published as a reading of 5.00. *)
Lemma C5_counterexample :
  (app_main_start lcg64 boot_null = Some st_boot_null
   /\ sscanf (lit "garbage") FORMAT = ScanCount []
   /\ publishes (new_events st_boot_null
                   (cycle lcg64 (cycle_with (UartBytes (lit "garbage"))) st_boot_null))
      = [])
  /\ (sscanf (lit "Currentreading:5") FORMAT = ScanCount [of_decimal false 5 0]
      /\ publishes (new_events st_1
                      (serial_part (cycle_with (UartBytes (lit "Currentreading:5"))) st_1))
         = [Publish 7 (lit "casa/Cocina/corriente")
              (ts_key ++ lit "1717000000" ++ I_key ++ lit "5.00}") 0 1 0]).
Proof.
  split; [split; [reflexivity|split; by_eval] | split; by_eval].
Qed.

(** * The buffers of [publish_corriente] *)

Lemma topic_text_length (fase : list ascii) :
  List.length (lit "casa/" ++ fase ++ lit "/corriente") = (15 + List.length fase)%nat.
Proof. rewrite !length_app. cbn. lia. Qed.

(** C10, as the code has it.  Topic and payload never exceed 63 and 127
    characters, so that the NUL fits the 64 and 128 bytes of the buffers.
    The topic is [casa/<channel>/corriente] for channel names of at most 48
    characters; for longer names it is the first 63 characters of that text,
    and the call goes on as usual, without any report of the truncation. *)
Theorem C10_bounded_buffers (e : pub_env) (fase : list ascii) (v : float) (st : state) :
  (List.length (topic_of fase) <= 63)%nat
  /\ (List.length (payload_of (now e) v) <= 127)%nat
  /\ topic_of fase
     = (if (List.length fase <=? 48)%nat then lit "casa/" ++ fase ++ lit "/corriente"
        else firstn 63 (lit "casa/" ++ fase ++ lit "/corriente"))
  /\ List.length (topic_of fase) = Nat.min 63 (15 + List.length fase)
  /\ new_events st (publish_corriente e fase v st)
     = match g_client st with
       | None =>
           [Log ESP_LOG_WARN TAG
              (lit "Cliente MQTT no inicializado, omitiendo publicación")]
       | Some cl =>
           [Publish cl (topic_of fase) (payload_of (now e) v) 0 1 0;
            Log ESP_LOG_INFO TAG
              (lit "Publicado msg_id=" ++ fmt_int (msg_id e) ++ lit " Tema="
                 ++ topic_of fase ++ lit " Payload=" ++ payload_of (now e) v)]
       end.
Proof.
  unfold topic_of, payload_of, snprintf.
  change (64 - 1)%nat with 63%nat. change (128 - 1)%nat with 127%nat.
  split; [apply firstn_le_length|].
  split; [apply firstn_le_length|].
  split; [|split].
  - destruct (Nat.leb_spec (List.length fase) 48) as [H|H]; [|reflexivity].
    apply firstn_all2. rewrite topic_text_length. lia.
  - rewrite length_firstn, topic_text_length. reflexivity.
  - apply new_events_app. apply publish_corriente_trace.
Qed.

(** C10 fails as stated: a channel name of 49 characters is already cut. *)
Lemma C10_counterexample :
  (List.length fase_49 <= 49)%nat
  /\ topic_of fase_49 <> lit "casa/" ++ fase_49 ++ lit "/corriente".
Proof.
  split; [by_eval|].
  intros H. apply (f_equal (@List.length ascii)) in H. vm_compute in H. discriminate.
Qed.

(** * The random source *)

Lemma raise_event_rand (id : mqtt_event_id) (ev : mqtt_event) (st : state) :
  rand_next (raise_event id ev st) = rand_next st.
Proof. destruct id; reflexivity. Qed.

Lemma cycle_rand (L : rand_impl) (c : cycle_in) (st : state) :
  rand_next (cycle L c st) = advance L (rand_next st).
Proof.
  unfold cycle. cbn [emit rand_next].
  destruct (synthetic_part_frame L c (serial_part c st)) as (_ & _ & ->).
  destruct (serial_part_frame c st) as (_ & -> & _). reflexivity.
Qed.

(** The state of [rand] depends on the seed and on the number of iterations
    only. *)
Lemma run_rand (L : rand_impl) (ins : list input) (st : state) :
  rand_next (run L ins st) = Nat.iter (count_cycles ins) (advance L) (rand_next st).
Proof.
  revert st. induction ins as [|[c|id ev] ins IH]; intros st; [reflexivity| |].
  - cbn [run fold_left step count_cycles]. fold (run L ins (cycle L c st)).
    rewrite IH, cycle_rand. symmetry. apply Nat.iter_succ_r.
  - cbn [run fold_left step count_cycles]. fold (run L ins (raise_event id ev st)).
    rewrite IH, raise_event_rand. reflexivity.
Qed.

(** C2, as the code has it.  The synthetic values come from the hidden
    global stream of [rand], seeded once before the loop from the timer.
    Two runs whose seed is the same draw the same synthetic values in their
    iterations of the same rank, whatever else they read. *)
Theorem C2_same_seed_same_values (L : rand_impl) (b1 b2 : boot_env) (st1 st2 : state)
    (ins1 ins2 : list input) :
  app_main_start L b1 = Some st1 ->
  app_main_start L b2 = Some st2 ->
  to_unsigned (timer_us b1) = to_unsigned (timer_us b2) ->
  count_cycles ins1 = count_cycles ins2 ->
  sala_of L (fst (draws L (run L ins1 st1))) = sala_of L (fst (draws L (run L ins2 st2)))
  /\ garage_of L (snd (draws L (run L ins1 st1)))
     = garage_of L (snd (draws L (run L ins2 st2))).
Proof.
  intros H1 H2 Hseed Hn.
  assert (E : rand_next (run L ins1 st1) = rand_next (run L ins2 st2)).
  { rewrite !run_rand, Hn. f_equal.
    unfold app_main_start in H1, H2.
    destruct (startup_ok b1); [|discriminate]. destruct (startup_ok b2); [|discriminate].
    injection H1 as <-. injection H2 as <-. cbn [mqtt_app_start rand_next].
    now rewrite Hseed. }
  unfold draws. rewrite E. auto.
Qed.

Lemma C2_witness :
  (app_main_start lcg64 boot_1 = Some st_1
   /\ to_unsigned (timer_us boot_1) = to_unsigned (timer_us boot_1)
   /\ count_cycles [Cycle idle] = count_cycles [Event MQTT_EVENT_CONNECTED
                                                  {| ev_id := 1; ev_msg_id := 0;
                                                     ev_topic := []; ev_data := [];
                                                     ev_error_type := 0 |};
                                                Cycle (cycle_with UartError)])
  /\ sala_of lcg64 (fst (draws lcg64 (run lcg64 [Cycle idle] st_1)))
     = sala_of lcg64
         (fst (draws lcg64
                 (run lcg64 [Event MQTT_EVENT_CONNECTED
                               {| ev_id := 1; ev_msg_id := 0; ev_topic := [];
                                  ev_data := []; ev_error_type := 0 |};
                             Cycle (cycle_with UartError)] st_1))).
Proof.
  split; [repeat split|].
  exact (proj1 (C2_same_seed_same_values lcg64 boot_1 boot_1 st_1 st_1 [Cycle idle]
                  [Event MQTT_EVENT_CONNECTED
                     {| ev_id := 1; ev_msg_id := 0; ev_topic := []; ev_data := [];
                        ev_error_type := 0 |};
                   Cycle (cycle_with UartError)]
                  eq_refl eq_refl eq_refl eq_refl)).
Defined.

(** C2 fails as stated: nothing is injected into an iteration, and two
    consecutive iterations with the same inputs publish different synthetic
    values, because the hidden state of [rand] has moved on. *)
Lemma C2_counterexample :
  publishes (new_events st_1 (cycle lcg64 idle st_1))
  = [Publish 7 (lit "casa/Sala/corriente")
       (ts_key ++ lit "1717000000" ++ I_key ++ lit "1.35}") 0 1 0;
     Publish 7 (lit "casa/Garage/corriente")
       (ts_key ++ lit "1717000000" ++ I_key ++ lit "2.75}") 0 1 0]
  /\ publishes (new_events (cycle lcg64 idle st_1)
                  (cycle lcg64 idle (cycle lcg64 idle st_1)))
     = [Publish 7 (lit "casa/Sala/corriente")
          (ts_key ++ lit "1717000000" ++ I_key ++ lit "1.30}") 0 1 0;
        Publish 7 (lit "casa/Garage/corriente")
          (ts_key ++ lit "1717000000" ++ I_key ++ lit "2.77}") 0 1 0].
Proof. split; by_eval. Qed.

(** * The serial reading *)

(** What the serial part hands to the client library when a value was read. *)
Lemma serial_reading (c : cycle_in) (st : state) (v : float) :
  0 < fst (uart_read_bytes (rx c) (UART_BUF_SIZE - 1)) ->
  sscanf (serial_text c) FORMAT = ScanCount [v] ->
  publishes (new_events st (serial_part c st))
  = match g_client st with
    | None => []
    | Some cl =>
        [Publish cl (lit "casa/Cocina/corriente") (payload_of (now (env_cocina c)) v) 0 1 0]
    end.
Proof.
  intros Hl Hs.
  destruct (serial_part_cases c st) as [(msg & _ & H)|(w & E & _ & ->)].
  - destruct (H v) as [N|N]; [contradiction | lia].
  - rewrite Hs in E. injection E as <-.
    erewrite new_events_app.
    2:{ unfold ESP_LOGI. cbn [emit trace]. rewrite publish_corriente_trace.
        rewrite <- app_assoc. reflexivity. }
    rewrite publishes_app, publishes_effects.
    destruct (g_client st); reflexivity.
Qed.

(** The scenario of the specification: [Current reading: 12.34 A]. *)
Lemma scenario_12_34 :
  sscanf (lit "Current reading: 12.34 A") FORMAT = ScanCount [of_decimal false 1234 (-2)]
  /\ publishes (new_events st_1
                  (serial_part (cycle_with (UartBytes (lit "Current reading: 12.34 A"))) st_1))
     = [Publish 7 (lit "casa/Cocina/corriente")
          (ts_key ++ lit "1717000000" ++ I_key ++ lit "12.34}") 0 1 0]
  /\ is_reading_object (ts_key ++ lit "1717000000" ++ I_key ++ lit "12.34}") = true.
Proof. repeat split; by_eval. Qed.

(** C3 at a frame whose value is out of the range of [float]: [sscanf]
    succeeds with an infinity, and the payload handed to the client library
    carries [inf], which is not a JSON number. *)
Theorem C3_infinite_reading :
  sscanf (lit "Current reading: 1e39 A") FORMAT = ScanCount [Inf false]
  /\ publishes (new_events st_1
                  (serial_part (cycle_with (UartBytes (lit "Current reading: 1e39 A"))) st_1))
     = [Publish 7 (lit "casa/Cocina/corriente")
          (ts_key ++ lit "1717000000" ++ I_key ++ lit "inf}") 0 1 0]
  /\ is_reading_object (ts_key ++ lit "1717000000" ++ I_key ++ lit "inf}") = false.
Proof. repeat split; by_eval. Qed.

(** * The round trip through [%.2f] and [%f] *)



Lemma canonical_max (t : Z) : canonical t -> t < overflow_mag -> t <= max_mag.
Proof.
  intros Ht Ho. unfold overflow_mag, max_mag in *.
  destruct (binade_cases t) as [S|(k & Hk & B)].
  - assert (2 ^ 24 <= 2 ^ 277 - 2 ^ 253) by by_eval. lia.
  - destruct (Z_lt_ge_dec k 276) as [C|C].
    + assert (2 ^ (k + 1) <= 2 ^ 276) by (apply Z.pow_le_mono_r; lia).
      assert (2 ^ 276 <= 2 ^ 277 - 2 ^ 253) by by_eval. lia.
    + assert (k < 277).
      { apply (Z.pow_lt_mono_r_iff 2); lia. }
      assert (k = 276) by lia. subst k.
      destruct (canonical_binade t 276 ltac:(lia) Ht ltac:(lia)) as (m & ->).
      change (276 - 23) with 253 in *.
      assert (E : 2 ^ 277 = 2 ^ 253 * 2 ^ 24) by reflexivity.
      assert (0 < 2 ^ 253) by reflexivity.
      nia.
Qed.



(** *** Digits *)

Ltac digit_cases d H :=
  let E := fresh in
  assert (E : d = 0 \/ d = 1 \/ d = 2 \/ d = 3 \/ d = 4 \/ d = 5 \/ d = 6 \/ d = 7
              \/ d = 8 \/ d = 9) by lia;
  clear H; repeat (destruct E as [E|E]; [subst d|]); [..|subst d].

Lemma digit_char_facts (d : Z) :
  0 <= d <= 9 ->
  is_digit (digit_char d) = true /\ digit_val (digit_char d) = d
  /\ isspace (digit_char d) = false
  /\ scan_sign (digit_char d :: nil) = (false, digit_char d :: nil)
  /\ Ascii.eqb (tolower (digit_char d)) "i" = false
  /\ Ascii.eqb (tolower (digit_char d)) "n" = false.
Proof. intros H. digit_cases d H; repeat split. Qed.






Lemma digit_char_signs (d : Z) :
  0 <= d <= 9 ->
  Ascii.eqb (digit_char d) "-" = false /\ Ascii.eqb (digit_char d) "+" = false.
Proof. intros H. digit_cases d H; split; reflexivity. Qed.



Lemma hundredths_digits (h : Z) :
  0 <= h ->
  0 <= h / 100 /\ 0 <= h / 10 mod 10 <= 9 /\ 0 <= h mod 10 <= 9
  /\ 100 * (h / 100) + 10 * (h / 10 mod 10) + h mod 10 = h.
Proof.
  intros H.
  pose proof (Z.div_mod h 10 ltac:(lia)).
  pose proof (Z.div_mod (h / 10) 10 ltac:(lia)).
  pose proof (Z.mod_pos_bound h 10 ltac:(lia)).
  pose proof (Z.mod_pos_bound (h / 10) 10 ltac:(lia)).
  assert (h / 10 / 10 = h / 100) by (rewrite Z.div_div by lia; reflexivity).
  assert (0 <= h / 100) by (apply Z.div_pos; lia).
  lia.
Qed.




(** * The payload of a finite reading *)

Lemma dec_fuel_length (f : nat) (n k : Z) (acc : list ascii) :
  0 <= n < 10 ^ k -> 1 <= k ->
  (List.length (dec_fuel f n acc) <= List.length acc + Z.to_nat k)%nat.
Proof.
  revert n k acc. induction f as [|f IH]; intros n k acc Hn Hk; cbn [dec_fuel]; [lia|].
  destruct (Z.ltb_spec n 10) as [Hs|Hs]; [cbn [List.length]; lia|].
  assert (Hk2 : 2 <= k).
  { destruct (Z.eq_dec k 1) as [->|]; [|lia]. change (10 ^ 1) with 10 in Hn. lia. }
  assert (Hd : 0 <= n / 10 < 10 ^ (k - 1)).
  { split; [apply Z.div_pos; lia|].
    apply Z.div_lt_upper_bound; [lia|].
    replace k with (Z.succ (k - 1)) in Hn by lia.
    rewrite Z.pow_succ_r in Hn by lia. lia. }
  specialize (IH (n / 10) (k - 1) (digit_char (n mod 10) :: acc) Hd ltac:(lia)).
  cbn [List.length] in IH. lia.
Qed.

Lemma dec_length (n k : Z) :
  0 <= n < 10 ^ k -> 1 <= k -> (List.length (dec n) <= Z.to_nat k)%nat.
Proof. intros Hn Hk. apply (dec_fuel_length _ n k [] Hn Hk). Qed.

Lemma to_long_long_range (z : Z) : - 2 ^ 63 <= to_long_long z < 2 ^ 63.
Proof.
  unfold to_long_long.
  pose proof (Z.mod_pos_bound (z + 2 ^ 63) (2 ^ 64) ltac:(reflexivity)).
  change (2 ^ 64) with (2 * 2 ^ 63) in *. lia.
Qed.

Lemma fmt_int_length (z : Z) :
  - 2 ^ 63 <= z < 2 ^ 63 -> (List.length (fmt_int z) <= 20)%nat.
Proof.
  intros Hz. unfold fmt_int.
  assert (B : 2 ^ 63 < 10 ^ 19) by reflexivity.
  destruct (Z.ltb_spec z 0).
  - rewrite length_app. change (List.length (lit "-")) with 1%nat.
    pose proof (dec_length (- z) 19 ltac:(lia) ltac:(lia)). lia.
  - pose proof (dec_length z 19 ltac:(lia) ltac:(lia)). lia.
Qed.

Lemma hundredths_range (t : Z) :
  canonical t -> t < overflow_mag -> 0 <= hundredths t / 100 < 10 ^ 39.
Proof.
  intros Ct Ot. pose proof (canonical_max t Ct Ot) as Hm.
  assert (P : 0 < one_mag) by reflexivity.
  assert (0 <= hundredths t) by (apply rne_nonneg; [exact P|destruct Ct; lia]).
  assert (hundredths t <= hundredths max_mag) by (apply rne_mono; lia).
  assert (hundredths max_mag < 100 * 10 ^ 39) by by_eval.
  split; [apply Z.div_pos; lia|].
  apply Z.div_lt_upper_bound; lia.
Qed.

Lemma fmt_2f_length (v : float) : valid v -> (List.length (fmt_2f v) <= 43)%nat.
Proof.
  destruct v as [|s|s t]; intros Hv.
  - cbv. lia.
  - destruct s; cbv; lia.
  - destruct Hv as (Ct & Ot). unfold fmt_2f.
    pose proof (dec_length _ 39 (hundredths_range t Ct Ot) ltac:(lia)).
    rewrite !length_app. cbn [List.length lit list_ascii_of_string].
    destruct s; cbn [sign_text List.length lit list_ascii_of_string]; lia.
Qed.

(** The payload of a reading always fits its buffer. *)
Lemma payload_whole (t : Z) (v : float) :
  valid v ->
  payload_of t v = ts_key ++ fmt_int (to_long_long t) ++ I_key ++ fmt_2f v ++ lit "}".
Proof.
  intros Hv. unfold payload_of, snprintf. apply firstn_all2.
  pose proof (fmt_int_length _ (to_long_long_range t)).
  pose proof (fmt_2f_length v Hv).
  rewrite !length_app.
  change (List.length ts_key) with 6%nat. change (List.length I_key) with 5%nat.
  change (List.length (lit "}")) with 1%nat. lia.
Qed.

Lemma skip_digits_app (l rest : list ascii) :
  forallb is_digit l = true -> starts_with_digit rest = false ->
  skip_digits (l ++ rest) = rest.
Proof.
  intros Hl Hr. induction l as [|c l IH]; cbn [app skip_digits].
  - destruct rest as [|c r]; [reflexivity|].
    cbn [starts_with_digit] in Hr. cbn [skip_digits]. now rewrite Hr.
  - cbn [forallb] in Hl. apply andb_true_iff in Hl as [-> Hl]. auto.
Qed.

(** The shape of a number written in decimal: digits only, and a leading
    zero only for zero itself. *)
Lemma dec_fuel_shape (f : nat) (n : Z) (acc : list ascii) :
  0 <= n < 2 ^ Z.of_nat (S f) ->
  exists d l, dec_fuel (S f) n acc = digit_char d :: l ++ acc
              /\ 0 <= d <= 9 /\ (n <> 0 -> d <> 0) /\ (n = 0 -> l = [])
              /\ forallb is_digit l = true.
Proof.
  revert n acc. induction f as [|f IH]; intros n acc Hn.
  - change (2 ^ Z.of_nat 1) with 2 in Hn. exists n, []. cbn [dec_fuel].
    destruct (Z.ltb_spec n 10); [|lia]. rewrite Z.mod_small by lia.
    repeat split; auto; lia.
  - remember (S f) as g eqn:G. cbn [dec_fuel]. destruct (Z.ltb_spec n 10) as [Hs|Hs].
    + exists n, []. rewrite Z.mod_small by lia. repeat split; auto; lia.
    + assert (Hf : 0 <= n / 10 < 2 ^ Z.of_nat g).
      { split; [apply Z.div_pos; lia|].
        apply Z.div_lt_upper_bound; [lia|].
        assert (2 ^ Z.of_nat (S g) = 2 * 2 ^ Z.of_nat g)
          by (rewrite (Nat2Z.inj_succ g), Z.pow_succ_r; lia).
        lia. }
      subst g.
      destruct (IH (n / 10) (digit_char (n mod 10) :: acc) Hf)
        as (d & l & E & Hd & Hnz & _ & Hl).
      assert (Hq : 1 <= n / 10) by (apply Z.div_le_lower_bound; lia).
      exists d, (l ++ [digit_char (n mod 10)]).
      split; [rewrite E, <- app_assoc; reflexivity|].
      split; [exact Hd|]. split; [intros _; apply Hnz; lia|]. split; [lia|].
      rewrite forallb_app, Hl. cbn [forallb andb].
      pose proof (Z.mod_pos_bound n 10 ltac:(lia)).
      now destruct (digit_char_facts (n mod 10) ltac:(lia)) as (-> & _).
Qed.

Lemma dec_shape (n : Z) :
  0 <= n ->
  exists d l, dec n = digit_char d :: l
              /\ 0 <= d <= 9 /\ (d = 0 -> l = []) /\ forallb is_digit l = true.
Proof.
  intros Hn. unfold dec.
  destruct (dec_fuel_shape (Z.to_nat (Z.log2 n)) n []) as (d & l & E & Hd & Hnz & Hz & Hl).
  - split; [exact Hn|].
    rewrite Nat2Z.inj_succ, Z2Nat.id by apply Z.log2_nonneg.
    destruct (Z.eq_dec n 0) as [->|]; [reflexivity|].
    apply Z.log2_spec. lia.
  - exists d, l. rewrite E, app_nil_r. repeat split; auto; try lia.
    intros ->. apply Hz. destruct (Z.eq_dec n 0); [assumption|]. now apply Hnz in n0.
Qed.

Lemma digit_char_nonzero (d : Z) :
  0 <= d <= 9 -> d <> 0 -> Ascii.eqb (digit_char d) "0" = false.
Proof. intros H N. digit_cases d H; try reflexivity. contradiction. Qed.

(** For the JSON grammar a decimal numeral counts like the numeral [0]. *)
Lemma json_number_dec (s : bool) (n : Z) (rest : list ascii) :
  0 <= n -> starts_with_digit rest = false ->
  json_number (sign_text s ++ dec n ++ rest) = json_number (sign_text s ++ lit "0" ++ rest).
Proof.
  intros Hn Hr.
  destruct (dec_shape n Hn) as (d & l & E & Hd & Hz & Hl).
  assert (G : json_number (dec n ++ rest) = json_number (lit "0" ++ rest)
              /\ match dec n ++ rest with
                 | c :: t =>
                     if is_digit c then
                       Some (let s2 := if Ascii.eqb c "0" then t else skip_digits t in s2)
                     else None
                 | [] => None
                 end = Some rest).
  { rewrite E. cbn [app].
    destruct (digit_char_facts d Hd) as (Fd & _).
    destruct (digit_char_signs d Hd) as (Fm & _).
    assert (S2 : (if Ascii.eqb (digit_char d) "0" then l ++ rest else skip_digits (l ++ rest))
                 = rest).
    { destruct (Z.eq_dec d 0) as [->|N].
      - rewrite (Hz eq_refl). reflexivity.
      - rewrite (digit_char_nonzero d Hd N). now apply skip_digits_app. }
    split.
    - unfold json_number. rewrite Fm, Fd, S2. reflexivity.
    - rewrite Fd. cbv zeta. now rewrite S2. }
  destruct G as (G0 & G1).
  destruct s; [|exact G0].
  change (sign_text true ++ dec n ++ rest) with ("-"%char :: dec n ++ rest).
  unfold json_number at 1. rewrite Ascii.eqb_refl.
  destruct (dec n ++ rest) as [|c t] eqn:Ec; [discriminate|].
  destruct (is_digit c); [|discriminate].
  cbv zeta in G1. injection G1 as ->. reflexivity.
Qed.

Lemma fmt_int_sign (z : Z) : fmt_int z = sign_text (z <? 0) ++ dec (Z.abs z).
Proof.
  unfold fmt_int. destruct (Z.ltb_spec z 0).
  - rewrite Z.abs_neq by lia. reflexivity.
  - rewrite Z.abs_eq by lia. reflexivity.
Qed.

(** The payload of a finite reading is the JSON object with the keys [ts]
    and [I]. *)
Lemma finite_payload_is_json (t : Z) (s : bool) (m : Z) :
  valid (Fin s m) ->
  payload_of t (Fin s m)
  = ts_key ++ fmt_int (to_long_long t) ++ I_key ++ fmt_2f (Fin s m) ++ lit "}"
  /\ is_reading_object (payload_of t (Fin s m)) = true.
Proof.
  intros Hv. pose proof (payload_whole t (Fin s m) Hv) as W.
  split; [exact W|]. rewrite W. unfold is_reading_object.
  rewrite strip_prefix_app, fmt_int_sign.
  replace ((sign_text (to_long_long t <? 0) ++ dec (Z.abs (to_long_long t)))
             ++ I_key ++ fmt_2f (Fin s m) ++ lit "}")
    with (sign_text (to_long_long t <? 0) ++ dec (Z.abs (to_long_long t))
            ++ I_key ++ fmt_2f (Fin s m) ++ lit "}")
    by (rewrite <- app_assoc; reflexivity).
  rewrite json_number_dec by (try reflexivity; lia).
  replace (json_number (sign_text (to_long_long t <? 0) ++ lit "0"
                          ++ I_key ++ fmt_2f (Fin s m) ++ lit "}"))
    with (Some (I_key ++ fmt_2f (Fin s m) ++ lit "}"))
    by (destruct (to_long_long t <? 0); reflexivity).
  rewrite strip_prefix_app. unfold fmt_2f.
  destruct Hv as (Ct & Ot).
  assert (Hpos : 0 <= hundredths m).
  { apply rne_nonneg; [reflexivity|]. destruct Ct. lia. }
  destruct (hundredths_digits _ Hpos) as (Hi & H1 & H2 & _).
  set (h := hundredths m) in *.
  replace ((sign_text s ++ dec (h / 100) ++ lit "."
              ++ [digit_char (h / 10 mod 10); digit_char (h mod 10)]) ++ lit "}")
    with (sign_text s ++ dec (h / 100)
            ++ "."%char :: digit_char (h / 10 mod 10) :: digit_char (h mod 10) :: lit "}")
    by (rewrite <- !app_assoc; reflexivity).
  rewrite json_number_dec by (try reflexivity; lia).
  destruct (digit_char_facts _ H1) as (F1 & _).
  destruct (digit_char_facts _ H2) as (F2 & _).
  assert (J : json_number (sign_text s ++ lit "0"
                             ++ "."%char :: digit_char (h / 10 mod 10)
                                  :: digit_char (h mod 10) :: lit "}")
              = Some (lit "}")).
  { destruct s.
    - change (sign_text true ++ lit "0" ++ ?r) with ("-"%char :: "0"%char :: r).
      unfold json_number. cbn [Ascii.eqb Bool.eqb]. cbv beta iota zeta.
      change (is_digit "0") with true. cbv beta iota.
      cbn [starts_with_digit andb]. rewrite F1. cbn [skip_digits]. rewrite F1, F2.
      reflexivity.
    - change (sign_text false ++ lit "0" ++ ?r) with ("0"%char :: r).
      unfold json_number. cbn [Ascii.eqb Bool.eqb]. cbv beta iota zeta.
      change (is_digit "0") with true. cbv beta iota.
      cbn [starts_with_digit andb]. rewrite F1. cbn [skip_digits]. rewrite F1, F2.
      reflexivity. }
  rewrite J. reflexivity.
Qed.

(** * Every value that [sscanf] assigns is a binary32 number *)

Lemma scan_digits_nonneg (s : list ascii) (acc cnt : Z) :
  0 <= acc -> 0 <= fst (fst (scan_digits s acc cnt)).
Proof.
  revert acc cnt. induction s as [|c s IH]; intros acc cnt Ha; cbn [scan_digits]; [exact Ha|].
  destruct (is_digit c) eqn:D; [|exact Ha].
  apply IH. unfold is_digit in D. apply andb_true_iff in D as [D _].
  apply Z.leb_le in D. unfold digit_val. lia.
Qed.

Lemma of_mag_valid (neg : bool) (n d : Z) : 0 <= n -> 0 < d -> valid (of_mag neg n d).
Proof.
  intros Hn Hd. unfold of_mag.
  destruct (Z.leb_spec overflow_mag (round_mag n d)); cbn [valid]; [exact I|].
  split; [now apply canonical_round_mag | assumption].
Qed.

Lemma of_decimal_valid (neg : bool) (m e10 : Z) : 0 <= m -> valid (of_decimal neg m e10).
Proof.
  intros Hm. unfold of_decimal.
  assert (P : 0 < one_mag) by reflexivity.
  destruct (m =? 0).
  - split; [apply canonical_0 | reflexivity].
  - destruct (Z.leb_spec 0 e10).
    + apply of_mag_valid; [|lia].
      assert (0 <= 10 ^ e10) by (apply Z.pow_nonneg; lia). nia.
    + apply of_mag_valid; [nia|]. apply Z.pow_pos_nonneg; lia.
Qed.

Lemma scan_float_valid (s : list ascii) (v : float) (r : list ascii) :
  scan_float s = Some (v, r) -> valid v.
Proof.
  unfold scan_float. destruct (scan_sign s) as [neg s1].
  destruct (match_ci (lit "inf") s1) as [r1|].
  { destruct (match_ci (lit "i") r1).
    - destruct (match_ci (lit "inity") r1); [|discriminate].
      intros H. injection H as <- _. exact I.
    - intros H. injection H as <- _. exact I. }
  destruct (match_ci (lit "nan") s1) as [r1|].
  { intros H. injection H as <- _. exact I. }
  pose proof (scan_digits_nonneg s1 0 0 ltac:(lia)) as N1.
  destruct (scan_digits s1 0 0) as [[ip n1] s2]. cbn [fst] in N1.
  assert (N2 : 0 <= fst (fst (match s2 with
                              | c :: t => if Ascii.eqb c "." then scan_digits t ip 0
                                          else (ip, 0, s2)
                              | [] => (ip, 0, s2)
                              end))).
  { destruct s2 as [|c t]; [exact N1|].
    destruct (Ascii.eqb c "."); [now apply scan_digits_nonneg | exact N1]. }
  destruct (match s2 with
            | c :: t => if Ascii.eqb c "." then scan_digits t ip 0 else (ip, 0, s2)
            | [] => (ip, 0, s2)
            end) as [[m n2] s3].
  cbn [fst] in N2.
  destruct (n1 + n2 =? 0); [discriminate|].
  destruct (scan_exponent s3) as [e s4].
  intros H. injection H as <- _. now apply of_decimal_valid.
Qed.

Lemma scan_directives_valid (ds : list directive) (s : list ascii) (vals vs : list float) :
  Forall valid vals -> scan_directives ds s vals = ScanCount vs -> Forall valid vs.
Proof.
  revert s vals. induction ds as [|[c| |] ds IH]; intros s vals Hv; cbn [scan_directives].
  - intros H. injection H as <-. exact Hv.
  - destruct s as [|c' s'].
    + destruct vals; cbn; intros H; [discriminate|]. injection H as <-. exact Hv.
    + destruct (Ascii.eqb c' c); [now apply IH|].
      destruct vals; cbn; intros H; injection H as <-; exact Hv.
  - now apply IH.
  - destruct (skip_ws s) as [|c s1] eqn:E.
    + destruct vals; cbn; intros H; [discriminate|]. injection H as <-. exact Hv.
    + destruct (scan_float (c :: s1)) as [[v rest]|] eqn:F.
      * apply IH. apply Forall_app. split; [exact Hv|].
        constructor; [|constructor]. eapply scan_float_valid, F.
      * destruct vals; cbn; intros H; injection H as <-; exact Hv.
Qed.

Lemma sscanf_valid (s fmt : list ascii) (v : float) :
  sscanf s fmt = ScanCount [v] -> valid v.
Proof.
  intros H. apply (scan_directives_valid _ _ [] [v]) in H; [|constructor].
  now inversion H.
Qed.

(** The finite case of C3: a frame that [sscanf] accepts with a finite
    value is published on [casa/Cocina/corriente] as the JSON object with
    the keys [ts] and [I], the value at two decimals. *)
Lemma finite_reading (c : cycle_in) (st : state) (cl : Z) (s : bool) (m : Z) :
  0 < fst (uart_read_bytes (rx c) (UART_BUF_SIZE - 1)) ->
  sscanf (serial_text c) FORMAT = ScanCount [Fin s m] ->
  g_client st = Some cl ->
  publishes (new_events st (serial_part c st))
  = [Publish cl (lit "casa/Cocina/corriente")
       (ts_key ++ fmt_int (to_long_long (now (env_cocina c))) ++ I_key
          ++ fmt_2f (Fin s m) ++ lit "}") 0 1 0]
  /\ is_reading_object
       (ts_key ++ fmt_int (to_long_long (now (env_cocina c))) ++ I_key
          ++ fmt_2f (Fin s m) ++ lit "}") = true.
Proof.
  intros Hl Hs Hc.
  pose proof (sscanf_valid _ _ _ Hs) as Hv.
  destruct (finite_payload_is_json (now (env_cocina c)) s m Hv) as (W & J).
  rewrite <- W. split; [|exact J].
  rewrite (serial_reading c st _ Hl Hs), Hc. reflexivity.
Qed.

(** A reading that is not finite never gives a JSON object. *)
Lemma nonfinite_payload_not_json (t : Z) (v : float) :
  match v with Fin _ _ => False | _ => True end ->
  payload_of t v = ts_key ++ fmt_int (to_long_long t) ++ I_key ++ fmt_2f v ++ lit "}"
  /\ is_reading_object (payload_of t v) = false.
Proof.
  intros Hv.
  assert (V : valid v) by (destruct v; [exact I|exact I|contradiction]).
  pose proof (payload_whole t v V) as W.
  split; [exact W|]. rewrite W. unfold is_reading_object.
  rewrite strip_prefix_app, fmt_int_sign.
  replace ((sign_text (to_long_long t <? 0) ++ dec (Z.abs (to_long_long t)))
             ++ I_key ++ fmt_2f v ++ lit "}")
    with (sign_text (to_long_long t <? 0) ++ dec (Z.abs (to_long_long t))
            ++ I_key ++ fmt_2f v ++ lit "}")
    by (rewrite <- app_assoc; reflexivity).
  rewrite json_number_dec by (try reflexivity; lia).
  replace (json_number (sign_text (to_long_long t <? 0) ++ lit "0"
                          ++ I_key ++ fmt_2f v ++ lit "}"))
    with (Some (I_key ++ fmt_2f v ++ lit "}"))
    by (destruct (to_long_long t <? 0); reflexivity).
  rewrite strip_prefix_app.
  destruct v as [|[|]|]; [reflexivity|reflexivity|reflexivity|contradiction].
Qed.

(** * The arithmetic agrees with the standard library's IEEE 754 model *)

Example fadd_agrees :
  to_spec (fadd (of_decimal false 26 (-1)) (of_decimal false 3 (-1)))
  = SpecFloat.SFadd 24 128 (to_spec (of_decimal false 26 (-1)))
      (to_spec (of_decimal false 3 (-1)))
  /\ to_spec (fadd (of_decimal false 1 0) (of_decimal true 9999999 (-7)))
     = SpecFloat.SFadd 24 128 (to_spec (of_decimal false 1 0))
         (to_spec (of_decimal true 9999999 (-7)))
  /\ to_spec (fadd (of_decimal false 3 38) (of_decimal false 3 38))
     = SpecFloat.SFadd 24 128 (to_spec (of_decimal false 3 38))
         (to_spec (of_decimal false 3 38)).
Proof. repeat split; by_eval. Qed.

Example fmul_agrees :
  to_spec (fmul (of_decimal false 123456789 (-9)) (of_decimal false 3 (-1)))
  = SpecFloat.SFmul 24 128 (to_spec (of_decimal false 123456789 (-9)))
      (to_spec (of_decimal false 3 (-1)))
  /\ to_spec (fmul (of_decimal false 1 (-30)) (of_decimal true 7 (-12)))
     = SpecFloat.SFmul 24 128 (to_spec (of_decimal false 1 (-30)))
         (to_spec (of_decimal true 7 (-12))).
Proof. repeat split; by_eval. Qed.

Example fdiv_agrees :
  to_spec (fdiv (of_int 1234567891) (of_int 2147483647))
  = SpecFloat.SFdiv 24 128 (to_spec (of_int 1234567891)) (to_spec (of_int 2147483647))
  /\ to_spec (fdiv (of_int 16838) (of_int 32767))
     = SpecFloat.SFdiv 24 128 (to_spec (of_int 16838)) (to_spec (of_int 32767))
  /\ to_spec (fdiv (of_decimal false 1 (-40)) (of_int 3))
     = SpecFloat.SFdiv 24 128 (to_spec (of_decimal false 1 (-40))) (to_spec (of_int 3)).
Proof. repeat split; by_eval. Qed.

Example of_int_agrees :
  to_spec (of_int 2147483647) = SpecFloat.binary_normalize 24 128 2147483647 0 false
  /\ to_spec (of_int 16777217) = SpecFloat.binary_normalize 24 128 16777217 0 false
  /\ to_spec (of_int 33554435) = SpecFloat.binary_normalize 24 128 33554435 0 false.
Proof. repeat split; by_eval. Qed.

Example sala_agrees :
  to_spec (sala_of lcg64 1234567891)
  = SpecFloat.SFadd 24 128 (SpecFloat.binary_normalize 24 128 1 0 false)
      (SpecFloat.SFmul 24 128
         (SpecFloat.SFdiv 24 128 (SpecFloat.binary_normalize 24 128 1234567891 0 false)
            (SpecFloat.binary_normalize 24 128 2147483647 0 false))
         (SpecFloat.binary_normalize 24 128 1 (-1) false)).
Proof. by_eval. Qed.

(** Ties go to the even digit, as [printf] does: 0.125 is written 0.12 and
    0.375 is written 0.38. *)
Example fmt_2f_ties :
  fmt_2f (of_decimal false 125 (-3)) = lit "0.12"
  /\ fmt_2f (of_decimal false 375 (-3)) = lit "0.38"
  /\ fmt_2f (of_decimal true 4 (-3)) = lit "-0.00"
  /\ fmt_2f (of_decimal false 26 (-1)) = lit "2.60".
Proof. repeat split; by_eval. Qed.

(** What [sscanf] does with some frames. *)
Example sscanf_samples :
  sscanf (lit "garbage") FORMAT = ScanCount []
  /\ sscanf [] FORMAT = ScanEOF
  /\ sscanf (lit "Current reading: abc A") FORMAT = ScanCount []
  /\ sscanf (lit "Current reading: ") FORMAT = ScanEOF
  /\ sscanf (lit "Current reading: -0.5") FORMAT = ScanCount [of_decimal true 5 (-1)]
  /\ sscanf (lit "Current reading: 1.5e1 A") FORMAT = ScanCount [of_decimal false 15 0]
  /\ sscanf (lit "Current reading: nan A") FORMAT = ScanCount [NaN].
Proof. repeat split; by_eval. Qed.

(** * Further properties of the loop *)

Lemma serial_new_events (c : cycle_in) (st : state) :
  trace (serial_part c st) = trace st ++ new_events st (serial_part c st)
  /\ ((exists msg, new_events st (serial_part c st) = [Log ESP_LOG_WARN TAG msg]
                   /\ serial_requests c (g_client st) = [])
      \/ (exists v, sscanf (serial_text c) FORMAT = ScanCount [v]
                    /\ 0 < fst (uart_read_bytes (rx c) (UART_BUF_SIZE - 1))
                    /\ new_events st (serial_part c st)
                       = publish_effects (g_client st) (env_cocina c) (lit "Cocina") v
                           ++ [Log ESP_LOG_INFO TAG
                                 (lit "Corriente publicada: " ++ fmt_2f v ++ lit " A")])).
Proof.
  destruct (serial_part_cases c st) as [(msg & E & H)|(v & S & Hl & E)].
  - assert (T : trace (serial_part c st) = trace st ++ [Log ESP_LOG_WARN TAG msg])
      by (rewrite E; reflexivity).
    rewrite (new_events_app _ _ _ T). split; [exact T|]. left. exists msg.
    split; [reflexivity|]. unfold serial_requests.
    destruct (Z.ltb_spec 0 (fst (uart_read_bytes (rx c) (UART_BUF_SIZE - 1)))) as [Hl|Hl];
      [|reflexivity].
    destruct (sscanf (serial_text c) FORMAT) as [|[|v [|w vs]]] eqn:S; try reflexivity.
    destruct (H v) as [N|N]; [contradiction | lia].
  - assert (T : trace (serial_part c st)
                = trace st ++ publish_effects (g_client st) (env_cocina c) (lit "Cocina") v
                    ++ [Log ESP_LOG_INFO TAG
                          (lit "Corriente publicada: " ++ fmt_2f v ++ lit " A")]).
    { rewrite E. unfold ESP_LOGI. cbn [emit trace]. rewrite publish_corriente_trace.
      rewrite <- app_assoc. reflexivity. }
    rewrite (new_events_app _ _ _ T). split; [exact T|]. right. exists v. auto.
Qed.

(** The request of the serial part depends on the state through the handle
    only. *)
Lemma serial_publishes (c : cycle_in) (st : state) :
  publishes (new_events st (serial_part c st)) = serial_requests c (g_client st).
Proof.
  destruct (serial_new_events c st) as (_ & [(msg & -> & ->)|(v & S & Hl & ->)]);
    [reflexivity|].
  unfold serial_requests. rewrite S.
  destruct (Z.ltb_spec 0 (fst (uart_read_bytes (rx c) (UART_BUF_SIZE - 1)))); [|lia].
  rewrite publishes_app, publishes_effects.
  destruct (g_client st); reflexivity.
Qed.

Lemma cycle_requests (L : rand_impl) (c : cycle_in) (st : state) :
  publishes (new_events st (cycle L c st))
  = serial_requests c (g_client st) ++ synthetic_requests L c st.
Proof. rewrite cycle_publishes, serial_publishes. reflexivity. Qed.

Lemma step_extends (L : rand_impl) (st : state) (i : input) :
  trace (step L st i) = trace st ++ new_events st (step L st i).
Proof.
  destruct (step_trace L st i) as (l & E & _).
  rewrite (new_events_app _ _ _ E). exact E.
Qed.

Lemma step_frame (L : rand_impl) (st : state) (i : input) :
  g_client (step L st i) = g_client st
  /\ rand_next (step L st i)
     = (if is_cycle i then advance L (rand_next st) else rand_next st).
Proof.
  destruct i as [c|id ev]; cbn [step is_cycle].
  - split; [|apply cycle_rand]. unfold cycle. cbn [emit g_client].
    destruct (synthetic_part_frame L c (serial_part c st)) as (-> & _).
    apply serial_part_frame.
  - split; [destruct id; reflexivity | apply raise_event_rand].
Qed.

Lemma run_cons (L : rand_impl) (i : input) (ins : list input) (st : state) :
  run L (i :: ins) st = run L ins (step L st i).
Proof. reflexivity. Qed.

Lemma run_g_client (L : rand_impl) (ins : list input) (st : state) :
  g_client (run L ins st) = g_client st.
Proof.
  revert st. induction ins as [|i ins IH]; intros st; [reflexivity|].
  rewrite run_cons, IH. apply step_frame.
Qed.

Lemma event_new_events (id : mqtt_event_id) (ev : mqtt_event) (st : state) :
  exists lv msg, new_events st (raise_event id ev st) = [Log lv TAG msg]
                 /\ (lv = ESP_LOG_ERROR <-> id = MQTT_EVENT_ERROR).
Proof.
  destruct id; eexists; eexists;
    (split; [apply new_events_app; reflexivity|]); split; congruence.
Qed.

(** X1. Broker events never change what is published: the requests of a run
    are those of the same run with the events left out, whatever the events
    report and wherever they fall between the iterations. *)
Theorem events_do_not_change_requests (L : rand_impl) (ins : list input) (st : state) :
  publishes (trace (run L ins st)) = publishes (trace (run L (filter is_cycle ins) st)).
Proof.
  assert (G : forall ins st st',
             g_client st = g_client st' -> rand_next st = rand_next st' ->
             publishes (trace st) = publishes (trace st') ->
             publishes (trace (run L ins st))
             = publishes (trace (run L (filter is_cycle ins) st'))).
  { clear ins st. induction ins as [|[c|id ev] ins IH]; intros st st' Hg Hr Hp.
    - exact Hp.
    - cbn [filter is_cycle]. rewrite !run_cons. apply IH.
      + destruct (step_frame L st (Cycle c)) as (-> & _).
        destruct (step_frame L st' (Cycle c)) as (-> & _). exact Hg.
      + destruct (step_frame L st (Cycle c)) as (_ & ->).
        destruct (step_frame L st' (Cycle c)) as (_ & ->). cbn [is_cycle]. now rewrite Hr.
      + rewrite (step_extends L st), (step_extends L st'), !publishes_app, Hp.
        cbn [step]. rewrite !cycle_requests.
        unfold synthetic_requests, draws. now rewrite Hg, Hr.
    - cbn [filter is_cycle]. rewrite run_cons. apply IH.
      + destruct (step_frame L st (Event id ev)) as (-> & _). exact Hg.
      + destruct (step_frame L st (Event id ev)) as (_ & ->). exact Hr.
      + rewrite (step_extends L st), publishes_app, <- Hp. cbn [step].
        destruct (event_new_events id ev st) as (lv & msg & -> & _).
        cbn. apply app_nil_r. }
  apply G; reflexivity.
Qed.

(** X2. The handle is assigned once, in [mqtt_app_start]: when
    [esp_mqtt_client_init] has failed, no later iteration and no broker
    event ever brings a request to the client library. *)
Theorem failed_init_never_publishes (L : rand_impl) (b : boot_env) (st0 : state)
    (ins : list input) :
  app_main_start L b = Some st0 ->
  mqtt_init b = None ->
  g_client (run L ins st0) = None /\ publishes (trace (run L ins st0)) = [].
Proof.
  intros H Hn.
  assert (G : g_client st0 = None /\ publishes (trace st0) = []).
  { unfold app_main_start in H. destruct (startup_ok b); [|discriminate].
    injection H as <-. rewrite Hn. split; reflexivity. }
  clear H Hn. destruct G as (Hg & Hp).
  split; [rewrite run_g_client; exact Hg|].
  revert st0 Hg Hp. induction ins as [|i ins IH]; intros st Hg Hp; [exact Hp|].
  rewrite run_cons. apply IH.
  - destruct (step_frame L st i) as (-> & _). exact Hg.
  - rewrite step_extends, publishes_app, Hp. cbn [app].
    destruct i as [c|id ev]; cbn [step].
    + rewrite cycle_requests. unfold synthetic_requests, serial_requests. rewrite Hg.
      destruct (0 <? _); [|reflexivity].
      destruct (sscanf (serial_text c) FORMAT) as [|[|v [|w vs]]]; reflexivity.
    + destruct (event_new_events id ev st) as (lv & msg & -> & _). reflexivity.
Qed.

Lemma failed_init_witness :
  (app_main_start lcg64 boot_null = Some st_boot_null /\ mqtt_init boot_null = None)
  /\ publishes (trace (run lcg64
                         [Cycle (cycle_with (UartBytes (lit "Current reading: 12.34 A")));
                          Cycle idle] st_boot_null)) = [].
Proof.
  split; [split; reflexivity|].
  exact (proj2 (failed_init_never_publishes lcg64 boot_null st_boot_null
                  [Cycle (cycle_with (UartBytes (lit "Current reading: 12.34 A")));
                   Cycle idle] eq_refl eq_refl)).
Defined.

(** The effects of one iteration: those of the serial part, those of the two
    synthetic channels, and the delay. *)
Lemma cycle_new_events (L : rand_impl) (c : cycle_in) (st : state) :
  new_events st (cycle L c st)
  = new_events st (serial_part c st)
      ++ publish_effects (g_client st) (env_sala c) (lit "Sala")
           (sala_of L (fst (draws L st)))
      ++ [Log ESP_LOG_INFO TAG
            (lit "Corriente publicada (Sala): " ++ fmt_2f (sala_of L (fst (draws L st)))
               ++ lit " A")]
      ++ publish_effects (g_client st) (env_garage c) (lit "Garage")
           (garage_of L (snd (draws L st)))
      ++ [Log ESP_LOG_INFO TAG
            (lit "Corriente publicada (Garage): " ++ fmt_2f (garage_of L (snd (draws L st)))
               ++ lit " A")]
      ++ [Delay 5000].
Proof.
  apply new_events_app. rewrite cycle_trace.
  destruct (serial_new_events c st) as (-> & _). rewrite <- app_assoc. reflexivity.
Qed.

Lemma cycle_filter (L : rand_impl) (c : cycle_in) (st : state) :
  filter is_delay (new_events st (cycle L c st)) = [Delay 5000]
  /\ filter is_error_log (new_events st (cycle L c st)) = [].
Proof.
  rewrite cycle_new_events.
  destruct (serial_new_events c st) as (_ & [(msg & -> & _)|(v & _ & _ & ->)]);
    destruct (g_client st); split; reflexivity.
Qed.



(** X4. The loop itself never logs at error level: time-outs, frames that
    do not parse and a missing handle are warnings.  The error lines of a
    run are exactly those of the [MQTT_EVENT_ERROR] events it received. *)
Theorem error_lines_come_from_error_events (L : rand_impl) (b : boot_env) (st0 : state)
    (ins : list input) :
  app_main_start L b = Some st0 ->
  List.length (filter is_error_log (trace (run L ins st0)))
  = List.length (filter is_error_event ins).
Proof.
  intros H.
  assert (G : filter is_error_log (trace st0) = []).
  { unfold app_main_start in H. destruct (startup_ok b); [|discriminate].
    injection H as <-. reflexivity. }
  clear H.
  assert (K : forall ins st,
             List.length (filter is_error_log (trace (run L ins st)))
             = (List.length (filter is_error_log (trace st))
                + List.length (filter is_error_event ins))%nat).
  { clear. induction ins as [|i ins IH]; intros st; [cbn; lia|].
    rewrite run_cons, IH, step_extends, filter_app, length_app.
    destruct i as [c|id ev]; cbn [step filter is_error_event].
    - destruct (cycle_filter L c st) as (_ & ->). cbn. lia.
    - destruct id; (erewrite new_events_app; [|reflexivity]);
        cbn [filter is_error_log List.length]; lia. }
  rewrite K, G. reflexivity.
Qed.

Lemma error_lines_witness :
  app_main_start lcg64 boot_1 = Some st_1
  /\ List.length
       (filter is_error_log
          (trace (run lcg64
                    [Cycle (cycle_with (UartBytes (lit "garbage")));
                     Event MQTT_EVENT_ERROR
                       {| ev_id := 0; ev_msg_id := 0; ev_topic := []; ev_data := [];
                          ev_error_type := 1 |}] st_1)))
     = 1%nat.
Proof.
  split; [reflexivity|].
  exact (error_lines_come_from_error_events lcg64 boot_1 st_1
           [Cycle (cycle_with (UartBytes (lit "garbage")));
            Event MQTT_EVENT_ERROR
              {| ev_id := 0; ev_msg_id := 0; ev_topic := []; ev_data := [];
                 ev_error_type := 1 |}] eq_refl).
Defined.

(** X5. Every iteration takes exactly two values from [rand], whether or not
    the serial read brought a frame and whether or not anything was
    published, and broker events take none: the state of the generator after
    a run depends on its state before and on the number of iterations
    only. *)
Theorem two_draws_per_iteration (L : rand_impl) (ins : list input) (st : state) :
  rand_next (run L ins st) = Nat.iter (count_cycles ins) (advance L) (rand_next st).
Proof.
  revert st. induction ins as [|i ins IH]; intros st; [reflexivity|].
  rewrite run_cons, IH. destruct (step_frame L st i) as (_ & ->).
  destruct i as [c|id ev]; cbn [is_cycle count_cycles]; [|reflexivity].
  symmetry. apply Nat.iter_succ_r.
Qed.

Lemma topics_app (a b : list event) : topics (a ++ b) = topics a ++ topics b.
Proof. apply flat_map_app. Qed.

(** X6. With an initialised handle an iteration issues its requests in a
    fixed order: the serial channel first, if a frame was accepted, then
    Sala, then Garage; never more than three and never fewer than two. *)
Theorem requests_in_channel_order (L : rand_impl) (c : cycle_in) (st : state) (cl : Z) :
  g_client st = Some cl ->
  topics (publishes (new_events st (cycle L c st)))
  = (match serial_requests c (Some cl) with
     | [] => []
     | _ => [lit "casa/Cocina/corriente"]
     end)
      ++ [lit "casa/Sala/corriente"; lit "casa/Garage/corriente"]
  /\ (2 <= List.length (publishes (new_events st (cycle L c st))) <= 3)%nat.
Proof.
  intros Hg. rewrite cycle_requests, Hg, topics_app, length_app.
  unfold synthetic_requests. rewrite Hg.
  unfold serial_requests.
  destruct (0 <? _); [|split; [reflexivity | cbn; lia]].
  destruct (sscanf (serial_text c) FORMAT) as [|[|v [|w vs]]];
    (split; [reflexivity | cbn; lia]).
Qed.

Lemma requests_order_witness :
  g_client st_1 = Some 7
  /\ topics (publishes
               (new_events st_1
                  (cycle lcg64 (cycle_with (UartBytes (lit "Current reading: 12.34 A")))
                     st_1)))
     = [lit "casa/Cocina/corriente"; lit "casa/Sala/corriente";
        lit "casa/Garage/corriente"].
Proof.
  split; [reflexivity|].
  exact (eq_trans
           (proj1 (requests_in_channel_order lcg64
                     (cycle_with (UartBytes (lit "Current reading: 12.34 A")))
                     st_1 7 eq_refl))
           eq_refl).
Defined.

(** X7. The value that [esp_mqtt_client_publish] returns is only logged: a
    failed publish (a negative message id) is neither retried nor noticed.
    Two iterations that differ in the returned ids only issue the same
    requests and leave the same handle, generator and session. *)
Theorem publish_result_is_ignored (L : rand_impl) (c c' : cycle_in) (st : state) :
  same_but_msg_ids c c' ->
  publishes (new_events st (cycle L c st)) = publishes (new_events st (cycle L c' st))
  /\ g_client (cycle L c st) = g_client (cycle L c' st)
  /\ rand_next (cycle L c st) = rand_next (cycle L c' st)
  /\ session (cycle L c st) = session (cycle L c' st).
Proof.
  intros (Hrx & Hc & Hs & Hg).
  split; [|split; [|split]].
  - rewrite !cycle_requests.
    unfold serial_requests, synthetic_requests, serial_text. now rewrite Hrx, Hc, Hs, Hg.
  - destruct (step_frame L st (Cycle c)) as (E & _).
    destruct (step_frame L st (Cycle c')) as (E' & _). cbn [step] in E, E'.
    now rewrite E, E'.
  - now rewrite !cycle_rand.
  - unfold cycle. cbn [emit session].
    destruct (synthetic_part_frame L c (serial_part c st)) as (_ & -> & _).
    destruct (synthetic_part_frame L c' (serial_part c' st)) as (_ & -> & _).
    destruct (serial_part_frame c st) as (_ & _ & ->).
    destruct (serial_part_frame c' st) as (_ & _ & ->). reflexivity.
Qed.

Lemma publish_result_witness :
  same_but_msg_ids (cycle_with (UartBytes (lit "Current reading: 12.34 A")))
    (cycle_failing (UartBytes (lit "Current reading: 12.34 A")))
  /\ publishes (new_events st_1
                  (cycle lcg64 (cycle_with (UartBytes (lit "Current reading: 12.34 A")))
                     st_1))
     = publishes (new_events st_1
                    (cycle lcg64
                       (cycle_failing (UartBytes (lit "Current reading: 12.34 A"))) st_1)).
Proof.
  assert (H : same_but_msg_ids (cycle_with (UartBytes (lit "Current reading: 12.34 A")))
                (cycle_failing (UartBytes (lit "Current reading: 12.34 A"))))
    by (unfold same_but_msg_ids; repeat split).
  split; [exact H|].
  exact (proj1 (publish_result_is_ignored lcg64 _ _ st_1 H)).
Defined.

(** X8. The lines [Corriente publicada (Sala)] and [Corriente publicada
    (Garage)] are logged in every iteration, also when the handle is NULL
    and [publish_corriente] has just dropped the reading: with a NULL handle
    the iteration logs both lines and issues no request. *)
Theorem published_lines_without_requests (L : rand_impl) (c : cycle_in) (st : state) :
  g_client st = None ->
  In (Log ESP_LOG_INFO TAG
        (lit "Corriente publicada (Sala): " ++ fmt_2f (sala_of L (fst (draws L st)))
           ++ lit " A"))
     (new_events st (cycle L c st))
  /\ In (Log ESP_LOG_INFO TAG
           (lit "Corriente publicada (Garage): "
              ++ fmt_2f (garage_of L (snd (draws L st))) ++ lit " A"))
        (new_events st (cycle L c st))
  /\ publishes (new_events st (cycle L c st)) = [].
Proof.
  intros Hg. split; [|split].
  - rewrite cycle_new_events. apply in_or_app. right.
    apply in_or_app. right. apply in_or_app. left. left. reflexivity.
  - rewrite cycle_new_events. apply in_or_app. right.
    apply in_or_app. right. apply in_or_app. right.
    apply in_or_app. right. apply in_or_app. left. left. reflexivity.
  - rewrite cycle_requests. unfold synthetic_requests, serial_requests. rewrite Hg.
    destruct (0 <? _); [|reflexivity].
    destruct (sscanf (serial_text c) FORMAT) as [|[|v [|w vs]]]; reflexivity.
Qed.

Lemma published_lines_witness :
  g_client st_null = None
  /\ publishes (new_events st_null (cycle lcg64 idle st_null)) = [].
Proof.
  split; [reflexivity|].
  exact (proj2 (proj2 (published_lines_without_requests lcg64 idle st_null eq_refl))).
Defined.

(** * Further properties of the frame parser *)

(** X9. The frames that the loop accepts are exactly the texts made of
    [Current], optional white space, [reading:], optional white space and a
    number that [%f] reads; the value assigned is that number.  What follows
    the number, the unit [A] or anything else, is never looked at. *)
Theorem frame_accepted_iff (s : list ascii) (v : float) :
  sscanf s FORMAT = ScanCount [v]
  <-> exists ws rest r,
        forallb isspace ws = true
        /\ s = lit "Current" ++ ws ++ lit "reading:" ++ rest
        /\ scan_float (skip_ws rest) = Some (v, r).
Proof.
  unfold sscanf. rewrite FORMAT_directives. split.
  - intros H.
    pose proof (scan_lits (lit "Current")
                  (DSpace :: map DLit (lit "reading:")
                     ++ [DSpace; DFloat; DSpace; DLit "A"%char]) s []) as P.
    destruct (strip_prefix (lit "Current") s) as [r1|] eqn:E1.
    2:{ destruct P as (b & P). rewrite P in H.
        destruct (scan_stop_cases b) as [Q|Q]; rewrite Q in H; discriminate. }
    rewrite P in H. cbn [scan_directives] in H.
    pose proof (scan_lits (lit "reading:") [DSpace; DFloat; DSpace; DLit "A"%char]
                  (skip_ws r1) []) as Q.
    destruct (strip_prefix (lit "reading:") (skip_ws r1)) as [r2|] eqn:E2.
    2:{ destruct Q as (b & Q). rewrite Q in H.
        destruct (scan_stop_cases b) as [Q'|Q']; rewrite Q' in H; discriminate. }
    rewrite Q in H. cbn [scan_directives] in H. rewrite skip_ws_idem in H.
    destruct (skip_ws_split r1) as (ws & Er & Hws).
    apply strip_prefix_some in E1, E2.
    destruct (skip_ws r2) as [|c t] eqn:E; [discriminate|].
    destruct (scan_float (c :: t)) as [[v' rest']|] eqn:F; [|discriminate].
    assert (Hv : v' = v).
    { destruct (skip_ws rest') as [|c' t']; [|destruct (Ascii.eqb c' "A")];
        cbn [app scan_stop scan_directives] in H; now injection H. }
    subst v'. clear H.
    exists ws, r2, rest'. split; [exact Hws|]. split; [|rewrite E; exact F].
    rewrite E1 at 1. rewrite Er at 1. now rewrite E2.
  - intros (ws & rest & r & Hws & -> & F).
    pose proof (scan_lits (lit "Current")
                  (DSpace :: map DLit (lit "reading:")
                     ++ [DSpace; DFloat; DSpace; DLit "A"%char])
                  (lit "Current" ++ ws ++ lit "reading:" ++ rest) []) as P.
    rewrite strip_prefix_app in P. rewrite P. cbn [scan_directives].
    rewrite (skip_ws_app ws _ Hws).
    change (skip_ws (lit "reading:" ++ rest)) with (lit "reading:" ++ rest).
    pose proof (scan_lits (lit "reading:") [DSpace; DFloat; DSpace; DLit "A"%char]
                  (lit "reading:" ++ rest) []) as Q.
    rewrite strip_prefix_app in Q. rewrite Q. cbn [scan_directives].
    rewrite skip_ws_idem.
    destruct (skip_ws rest) as [|c t] eqn:E; [vm_compute in F; discriminate|].
    rewrite F.
    destruct (skip_ws r) as [|c' t']; [|destruct (Ascii.eqb c' "A")]; reflexivity.
Qed.

Lemma c_str_app (b y : list ascii) :
  no_nul b = true -> c_str y = [] -> c_str (b ++ y) = b.
Proof.
  intros Hb Hy. induction b as [|c b IH]; cbn [app c_str]; [exact Hy|].
  cbn [no_nul forallb] in Hb. apply andb_true_iff in Hb as [Hc Hb].
  destruct (Ascii.eqb c zero); [discriminate|]. f_equal. now apply IH.
Qed.

Lemma serial_part_after_nul (c : cycle_in) (st : state) (b1 b2 : list ascii) :
  b1 <> [] -> no_nul b1 = true -> (List.length b1 <= 1023)%nat ->
  serial_part (with_rx c (UartBytes (b1 ++ zero :: b2))) st
  = serial_part (with_rx c (UartBytes b1)) st.
Proof.
  intros Hne Hn Hl. unfold serial_part, uart_read_bytes.
  cbn [with_rx rx env_cocina]. change (UART_BUF_SIZE - 1)%nat with 1023%nat.
  rewrite (firstn_all2 b1) by exact Hl.
  rewrite firstn_app, (firstn_all2 b1) by exact Hl.
  assert (Hpos : (0 < List.length b1)%nat) by (destruct b1; [contradiction | cbn; lia]).
  destruct (Z.ltb_spec 0 (Z.of_nat (List.length b1))); [|lia].
  destruct (Z.ltb_spec 0 (Z.of_nat (List.length
                                      (b1 ++ firstn (1023 - List.length b1) (zero :: b2)))));
    [|rewrite length_app in *; lia].
  assert (Hc : c_str b1 = b1).
  { pose proof (c_str_app b1 [] Hn eq_refl) as E. now rewrite app_nil_r in E. }
  rewrite Hc, (c_str_app b1 _ Hn); [reflexivity|].
  destruct (1023 - List.length b1)%nat; reflexivity.
Qed.

(** X10. The text handed to [sscanf] ends at the first NUL byte that the
    UART delivered: whatever arrived after it in the same read is dropped
    without a trace, and the iteration is the one of a read that ended
    there. *)
Theorem bytes_after_nul_are_dropped (L : rand_impl) (c : cycle_in) (st : state)
    (b1 b2 : list ascii) :
  b1 <> [] -> no_nul b1 = true -> (List.length b1 <= 1023)%nat ->
  cycle L (with_rx c (UartBytes (b1 ++ zero :: b2))) st
  = cycle L (with_rx c (UartBytes b1)) st.
Proof.
  intros Hne Hn Hl. unfold cycle, synthetic_part. cbn [with_rx env_sala env_garage].
  now rewrite (serial_part_after_nul c st b1 b2 Hne Hn Hl).
Qed.

Lemma bytes_after_nul_witness :
  (lit "Current reading: 1.5 A" <> [] /\ no_nul (lit "Current reading: 1.5 A") = true
   /\ (List.length (lit "Current reading: 1.5 A") <= 1023)%nat)
  /\ cycle lcg64 (with_rx idle (UartBytes (lit "Current reading: 1.5 A" ++ zero :: lit "9")))
       st_1
     = cycle lcg64 (with_rx idle (UartBytes (lit "Current reading: 1.5 A"))) st_1.
Proof.
  assert (H1 : lit "Current reading: 1.5 A" <> []) by discriminate.
  assert (H2 : no_nul (lit "Current reading: 1.5 A") = true) by reflexivity.
  assert (H3 : (List.length (lit "Current reading: 1.5 A") <= 1023)%nat) by (cbn; lia).
  split; [repeat split; assumption|].
  exact (bytes_after_nul_are_dropped lcg64 idle st_1 (lit "Current reading: 1.5 A")
           (lit "9") H1 H2 H3).
Defined.

(** * Further properties of the topic and the payload *)

(** X11. Distinct channel names of at most 48 characters never share a
    topic. *)
Theorem short_names_have_distinct_topics (f1 f2 : list ascii) :
  (List.length f1 <= 48)%nat -> (List.length f2 <= 48)%nat ->
  f1 <> f2 -> topic_of f1 <> topic_of f2.
Proof.
  intros H1 H2 Hne. unfold topic_of, snprintf.
  rewrite !firstn_all2 by (rewrite topic_text_length; cbn; lia).
  intros E. apply Hne. apply app_inv_head in E. now apply app_inv_tail in E.
Qed.

Lemma short_names_witness :
  ((List.length (lit "Sala") <= 48)%nat /\ (List.length (lit "Garage") <= 48)%nat
   /\ lit "Sala" <> lit "Garage")
  /\ topic_of (lit "Sala") <> topic_of (lit "Garage").
Proof.
  assert (H1 : (List.length (lit "Sala") <= 48)%nat) by (cbn; lia).
  assert (H2 : (List.length (lit "Garage") <= 48)%nat) by (cbn; lia).
  assert (H3 : lit "Sala" <> lit "Garage") by discriminate.
  split; [repeat split; assumption|].
  exact (short_names_have_distinct_topics (lit "Sala") (lit "Garage") H1 H2 H3).
Defined.

(** X12. From 58 characters on, only the first 58 characters of a channel
    name reach the topic, and the suffix [/corriente] is lost altogether:
    all names with the same first 58 characters are published on one and the
    same topic. *)
Theorem long_names_share_a_topic (f x y : list ascii) :
  (58 <= List.length f)%nat ->
  topic_of (f ++ x) = lit "casa/" ++ firstn 58 f
  /\ topic_of (f ++ x) = topic_of (f ++ y).
Proof.
  intros H.
  assert (G : forall z, topic_of (f ++ z) = lit "casa/" ++ firstn 58 f).
  { intros z. unfold topic_of, snprintf.
    change (firstn (64 - 1) (lit "casa/" ++ (f ++ z) ++ lit "/corriente"))
      with (lit "casa/" ++ firstn 58 ((f ++ z) ++ lit "/corriente")).
    f_equal. rewrite <- app_assoc, firstn_app.
    replace (58 - List.length f)%nat with 0%nat by lia.
    cbn [firstn]. apply app_nil_r. }
  split; [apply G|]. now rewrite !G.
Qed.

Lemma long_names_witness :
  (58 <= List.length fase_58)%nat
  /\ topic_of (fase_58 ++ lit "A") = topic_of (fase_58 ++ lit "B").
Proof.
  assert (H : (58 <= List.length fase_58)%nat) by (cbn; lia).
  split; [exact H|].
  exact (proj2 (long_names_share_a_topic fase_58 (lit "A") (lit "B") H)).
Defined.

(** The float operations keep their results within binary32. *)
Lemma of_int_valid (z : Z) : valid (of_int z).
Proof.
  assert (P : 0 < one_mag) by reflexivity.
  unfold of_int. destruct (Z.ltb_spec z 0); apply of_mag_valid; nia.
Qed.

Lemma fadd_valid (x y : float) : valid x -> valid y -> valid (fadd x y).
Proof.
  destruct x as [|a|a ta], y as [|b|b tb]; cbn [fadd valid]; intros Hx Hy; try exact I.
  - now destruct (Bool.eqb a b).
  - destruct (signed a ta + signed b tb =? 0).
    + split; [apply canonical_0 | reflexivity].
    + apply of_mag_valid; lia.
Qed.

Lemma fmul_valid (x y : float) : valid x -> valid y -> valid (fmul x y).
Proof.
  destruct x as [|a|a ta], y as [|b|b tb]; cbn [fmul valid]; intros Hx Hy; try exact I.
  - now destruct (tb =? 0).
  - now destruct (ta =? 0).
  - destruct Hx as ((Hx & _) & _), Hy as ((Hy & _) & _).
    apply of_mag_valid; [nia | reflexivity].
Qed.

Lemma fdiv_valid (x y : float) : valid x -> valid y -> valid (fdiv x y).
Proof.
  destruct x as [|a|a ta], y as [|b|b tb]; cbn [fdiv valid]; intros Hx Hy; try exact I.
  - split; [apply canonical_0 | reflexivity].
  - destruct Hx as ((Hx & _) & _), Hy as ((Hy & _) & _).
    assert (P : 0 < one_mag) by reflexivity.
    destruct (Z.eqb_spec tb 0).
    + now destruct (ta =? 0).
    + apply of_mag_valid; [nia | lia].
Qed.

Lemma synthetic_valid (L : rand_impl) (r : Z) :
  valid (sala_of L r) /\ valid (garage_of L r).
Proof.
  unfold sala_of, garage_of.
  split; apply fadd_valid; try (apply of_decimal_valid; lia);
    apply fmul_valid; try (apply of_decimal_valid; lia);
    apply fdiv_valid; apply of_int_valid.
Qed.

Lemma payload_text_length (t : Z) (v : float) :
  valid v -> (List.length (payload_text t v) <= 75)%nat.
Proof.
  intros Hv. unfold payload_text.
  pose proof (fmt_int_length _ (to_long_long_range t)).
  pose proof (fmt_2f_length v Hv).
  rewrite !length_app.
  change (List.length ts_key) with 6%nat. change (List.length I_key) with 5%nat.
  change (List.length (lit "}")) with 1%nat. lia.
Qed.

Lemma publish_effects_whole (client : option Z) (e : pub_env) (fase : list ascii)
    (v : float) :
  valid v -> Forall whole_payload (publish_effects client e fase v).
Proof.
  intros Hv. unfold publish_effects.
  destruct client as [cl|]; [|constructor; [exact I | constructor]].
  constructor; [|constructor; [exact I | constructor]].
  cbn [whole_payload]. split.
  - exists (now e), v. apply (payload_whole (now e) v Hv).
  - rewrite (payload_whole (now e) v Hv). apply payload_text_length. exact Hv.
Qed.

(** X13. The 128 bytes of the payload buffer always suffice: in no run is a
    payload cut by [snprintf].  Every request carries the whole text
    [{"ts":<seconds>,"I":<value>}], of at most 75 characters, whatever the
    clock says and whatever value was read or drawn. *)
Theorem payloads_are_never_cut (L : rand_impl) (b : boot_env) (st0 : state)
    (ins : list input) :
  app_main_start L b = Some st0 ->
  Forall whole_payload (trace (run L ins st0)).
Proof.
  intros H.
  assert (G : Forall whole_payload (trace st0)).
  { unfold app_main_start in H. destruct (startup_ok b); [|discriminate].
    injection H as <-. cbn [mqtt_app_start trace banner].
    repeat (constructor; [exact I|]). constructor. }
  clear H. revert st0 G. induction ins as [|i ins IH]; intros st G; [exact G|].
  rewrite run_cons. apply IH. rewrite step_extends. apply Forall_app. split; [exact G|].
  destruct i as [c|id ev]; cbn [step].
  - rewrite cycle_new_events.
    destruct (synthetic_valid L (fst (draws L st))) as (Vs & _).
    destruct (synthetic_valid L (snd (draws L st))) as (_ & Vg).
    assert (Lg : forall m, Forall whole_payload [Log ESP_LOG_INFO TAG m])
      by (intros m; constructor; [exact I | constructor]).
    apply Forall_app. split.
    + destruct (serial_new_events c st) as (_ & [(msg & -> & _)|(v & S & _ & ->)]).
      * constructor; [exact I | constructor].
      * apply Forall_app. split; [|apply Lg].
        apply publish_effects_whole. eapply sscanf_valid, S.
    + apply Forall_app. split; [apply publish_effects_whole; exact Vs|].
      apply Forall_app. split; [apply Lg|].
      apply Forall_app. split; [apply publish_effects_whole; exact Vg|].
      apply Forall_app. split; [apply Lg|].
      constructor; [exact I | constructor].
  - destruct (event_new_events id ev st) as (lv & msg & -> & _).
    constructor; [exact I | constructor].
Qed.

Lemma payloads_witness :
  app_main_start lcg64 boot_1 = Some st_1
  /\ Forall whole_payload
       (trace (run lcg64 [Cycle (cycle_with (UartBytes (lit "Current reading: 1e39 A")))]
                 st_1)).
Proof.
  split; [reflexivity|].
  exact (payloads_are_never_cut lcg64 boot_1 st_1
           [Cycle (cycle_with (UartBytes (lit "Current reading: 1e39 A")))] eq_refl).
Defined.

(** X14. A frame accepted with a finite value is published on
    [casa/Cocina/corriente] with a payload that is a JSON object with the
    keys [ts] and [I], for every clock value, negative ones included. *)
Theorem finite_frames_give_json (c : cycle_in) (st : state) (cl : Z) (s : bool) (m : Z) :
  0 < fst (uart_read_bytes (rx c) (UART_BUF_SIZE - 1)) ->
  sscanf (serial_text c) FORMAT = ScanCount [Fin s m] ->
  g_client st = Some cl ->
  publishes (new_events st (serial_part c st))
  = [Publish cl (lit "casa/Cocina/corriente")
       (payload_text (now (env_cocina c)) (Fin s m)) 0 1 0]
  /\ is_reading_object (payload_text (now (env_cocina c)) (Fin s m)) = true.
Proof.
  intros Hl Hs Hc.
  pose proof (sscanf_valid _ _ _ Hs) as Hv.
  destruct (finite_payload_is_json (now (env_cocina c)) s m Hv) as (W & J).
  unfold payload_text. rewrite <- W. split; [|exact J].
  rewrite serial_publishes. unfold serial_requests. rewrite Hs, Hc.
  destruct (Z.ltb_spec 0 (fst (uart_read_bytes (rx c) (UART_BUF_SIZE - 1)))); [|lia].
  reflexivity.
Qed.

Lemma finite_frames_witness :
  (0 < fst (uart_read_bytes
              (rx (cycle_with (UartBytes (lit "Current reading: -0.004 A"))))
              (UART_BUF_SIZE - 1))
   /\ sscanf (serial_text (cycle_with (UartBytes (lit "Current reading: -0.004 A")))) FORMAT
      = ScanCount [Fin true 2854495520993175332177990975087310421360640]
   /\ g_client st_1 = Some 7)
  /\ is_reading_object
       (payload_text (now (env_cocina (cycle_with (UartBytes (lit "Current reading: -0.004 A")))))
          (Fin true 2854495520993175332177990975087310421360640)) = true.
Proof.
  assert (H1 : 0 < fst (uart_read_bytes
                          (rx (cycle_with (UartBytes (lit "Current reading: -0.004 A"))))
                          (UART_BUF_SIZE - 1))) by by_eval.
  assert (H2 : sscanf (serial_text (cycle_with (UartBytes (lit "Current reading: -0.004 A"))))
                 FORMAT
               = ScanCount [Fin true 2854495520993175332177990975087310421360640])
    by by_eval.
  split; [repeat split; assumption|].
  exact (proj2 (finite_frames_give_json
                  (cycle_with (UartBytes (lit "Current reading: -0.004 A"))) st_1 7 true _
                  H1 H2 eq_refl)).
Defined.
